(** * Warehouse network optimizer: a shallow embedding of [optimization.py]

    The development follows [src/optimization.py] and the two helpers it
    imports from [src/utils.py] ([warehousing_cost], [get_drive_time_matrix]).

    Numbers.  Python floats are modelled by exact rationals ([Q]); sums and
    products are therefore exact and numeric results are compared with [==].
    Coordinates, rows and centre lists are compared with Leibniz equality.

    Libraries.  numpy's elementary functions, scikit-learn's [KMeans] and the
    OpenRouteService client are not part of the repository: they are section
    variables.  The routing client is consulted through an explicit history of
    the requests sent so far, so that "no request was sent" can be stated. *)

From Stdlib Require Import String QArith Qminmax Lqa ZArith Bool List Lia.
From Stdlib Require Import PrimFloat FloatOps SpecFloat.
Import ListNotations.

Open Scope Q_scope.

(* ------------------------------------------------------------------ *)
(** ** Exceptions, outcomes and the request history *)

Inductive exn : Type :=
| ApiError            (* openrouteservice.exceptions.ApiError *)
| HTTPError           (* openrouteservice.exceptions.HTTPError *)
| Timeout             (* openrouteservice.exceptions.Timeout *)
| ConnectionError     (* requests.exceptions.ConnectionError *)
| KeyError
| TypeError
| ValueError
| IndexError
| KeyboardInterrupt.  (* a BaseException that is not an Exception *)

(** [except Exception] catches everything but the bare [BaseException]s. *)
Definition is_Exception (e : exn) : bool :=
  match e with
  | KeyboardInterrupt => false
  | _ => true
  end.

(** [except openrouteservice.exceptions.ApiError]. *)
Definition is_ApiError (e : exn) : bool :=
  match e with
  | ApiError => true
  | _ => false
  end.

(** Authentication and quota failures surface as [ApiError] (HTTP 4xx),
    transport failures as [HTTPError], [Timeout] or [ConnectionError]. *)
Definition provider_failure (e : exn) : bool :=
  match e with
  | ApiError | HTTPError | Timeout | ConnectionError => true
  | _ => false
  end.

Inductive outcome (A : Type) : Type :=
| Ret (a : A)
| Raise (e : exn).
Arguments Ret {A} a.
Arguments Raise {A} e.

Definition point : Type := (Q * Q)%type.          (* [lon, lat] *)

Record request : Type := mkRequest {
  req_origins : list point;
  req_destinations : list point;
  req_key : string
}.

Definition history : Type := list request.

(** A computation that may send routing requests and may raise. *)
Definition M (A : Type) : Type := history -> outcome A * history.

Definition ret {A} (a : A) : M A := fun h => (Ret a, h).
Definition raise {A} (e : exn) : M A := fun h => (Raise e, h).
Definition lift {A} (o : outcome A) : M A := fun h => (o, h).

Definition bind {A B} (m : M A) (f : A -> M B) : M B :=
  fun h =>
    match m h with
    | (Ret a, h') => f a h'
    | (Raise e, h') => (Raise e, h')
    end.

(** [try: m except <handles>: handler] *)
Definition try_except {A} (m : M A) (handles : exn -> bool) (handler : M A) : M A :=
  fun h =>
    match m h with
    | (Ret a, h') => (Ret a, h')
    | (Raise e, h') => if handles e then handler h' else (Raise e, h')
    end.

Notation "x <- m ;; k" := (bind m (fun x => k))
  (at level 61, m at next level, right associativity).
Notation "' p <- m ;; k" := (bind m (fun x => let p := x in k))
  (at level 61, p pattern, m at next level, right associativity).

(* ------------------------------------------------------------------ *)
(** ** Small numeric helpers *)

Definition Qltb (x y : Q) : bool :=
  match x ?= y with
  | Lt => true
  | _ => false
  end.

(** [arr.sum()] and the [acc += x] loops all start from [0.0]. *)
Definition Qsum (l : list Q) : Q := fold_left Qplus l 0.

Definition matrix : Type := list (list Q).

(** Number of columns of a 2-D array stored as a list of rows. *)
Definition ncols (m : matrix) : nat :=
  match m with
  | [] => 0%nat
  | r :: _ => length r
  end.

Definition regular (A : Type) (rows : list (list A)) : bool :=
  match rows with
  | [] => true
  | r :: rest => forallb (fun r' => Nat.eqb (length r') (length r)) rest
  end.
Arguments regular {A} rows.

Fixpoint all_some {A} (l : list (option A)) : option (list A) :=
  match l with
  | [] => Some []
  | None :: _ => None
  | Some a :: t =>
      match all_some t with
      | Some t' => Some (a :: t')
      | None => None
      end
  end.

(** [np.array(secs) / 60.0]: a ragged nesting is refused by [np.array]; a
    [None] duration (JSON null) gives an object array whose division raises. *)
Definition np_array_div60 (secs : list (list (option Q))) : outcome matrix :=
  if negb (regular secs) then Raise ValueError
  else
    match all_some (map all_some secs) with
    | None => Raise TypeError
    | Some rows => Ret (map (map (fun s => s / 60)) rows)
    end.

(** Elementwise product of two 1-D arrays, with numpy's broadcasting. *)
Definition np_mul (a b : list Q) : outcome (list Q) :=
  if Nat.eqb (length a) (length b) then Ret (map (fun p => fst p * snd p) (combine a b))
  else
    match a, b with
    | [x], _ => Ret (map (fun y => x * y) b)
    | _, [y] => Ret (map (fun x => x * y) a)
    | _, _ => Raise ValueError
    end.

(** [dists[:] = time_mat] for a target of shape [(n, m)].  A source built
    from the empty list is the 1-D array of shape [(0,)]. *)
Definition broadcast_to (n m : nat) (src : matrix) : outcome matrix :=
  match src with
  | [] => if Nat.eqb m 0 then Ret (repeat [] n) else Raise ValueError
  | r0 :: _ =>
      let r := length src in
      let c := length r0 in
      if (Nat.eqb r n || Nat.eqb r 1) && (Nat.eqb c m || Nat.eqb c 1) then
        let widen (row : list Q) :=
          if Nat.eqb c m then row else repeat (nth 0 row 0) m in
        if Nat.eqb r n then Ret (map widen src)
        else Ret (repeat (widen r0) n)
      else Raise ValueError
  end.

(** First index of the least element, as [ndarray.argmin]. *)
Fixpoint argmin_from (best_i : nat) (best : Q) (i : nat) (l : list Q) : nat :=
  match l with
  | [] => best_i
  | x :: t =>
      if Qltb x best then argmin_from i x (S i) t
      else argmin_from best_i best (S i) t
  end.

Definition argmin_row (row : list Q) : nat :=
  match row with
  | [] => 0%nat
  | x :: t => argmin_from 0 x 1 t
  end.

(** [x or []] *)
Definition or_empty {A} (o : option (list A)) : list A :=
  match o with
  | Some l => l
  | None => []
  end.

(** [not api_key] is true for [None] and for the empty string. *)
Definition key_missing (api_key : option string) : bool :=
  match api_key with
  | None => true
  | Some s => String.eqb s EmptyString
  end.

(* ------------------------------------------------------------------ *)
(** ** Data model *)

Record row : Type := mkRow {
  Longitude : Q;
  Latitude : Q;
  DemandLbs : Q
}.

Definition dataframe : Type := list row.

(** A row of [assigned]: the input row with its two added columns. *)
Record arow : Type := mkARow {
  store : row;
  Warehouse : nat;
  TimeMin : Q
}.

(** An entry of [rdc_list], as [app.py] builds it. *)
Record rdc : Type := mkRdc {
  coords : point;
  is_sdc : bool
}.

Definition supply : Type := (Q * Q * Q)%type.     (* lon, lat, pct *)

Record Solution : Type := mkSolution {
  k : Z;
  centers : list point;
  assigned : list arow;
  out_cost : Q;
  wh_cost : Q;
  in_cost : Q;
  trans_cost : Q;
  total_cost : Q;
  demand_per_wh : list Q
}.

(** [utils.warehousing_cost] *)
Definition warehousing_cost (demand sqft_per_lb cost_per_sqft fixed : Q) : Q :=
  fixed + demand * sqft_per_lb * cost_per_sqft.

Definition EARTH_RADIUS_MILES : Q := 3958.8.

(* ------------------------------------------------------------------ *)
(** ** Demand per centre in the arithmetic of the table *)

(** [column.sum()] in the arithmetic [add] of the column's numbers, from
    [zero] and in the order of the rows (the order numpy follows on a column
    of fewer than eight entries). *)
Definition sum_in_order {num : Type} (add : num -> num -> num) (zero : num)
    (l : list num) : num :=
  fold_left add l zero.

(** Lines 150-155 of [optimize] on a column of weights of any number type:
    [assigned.loc[assigned['Warehouse'] == i, 'DemandLbs'].sum()] for each
    [i in range(len(centers))]. *)
Definition demand_totals {num : Type} (add : num -> num -> num) (zero : num)
    (warehouse : list nat) (weights : list num) (m : nat) : list num :=
  map (fun i =>
         sum_in_order add zero
           (map snd (filter (fun r => Nat.eqb (fst r) i)
                            (combine warehouse weights))))
      (seq 0 m).

(** The rational number a float64 stands for; infinities and NaN stand for
    none. *)
Definition float_value (f : float) : option Q :=
  match Prim2SF f with
  | S754_zero _ => Some 0
  | S754_finite sign m e =>
      let mag := inject_Z (Zpos m) * Qpower 2 e in
      Some (Qred (if sign then - mag else mag))
  | _ => None
  end.

(* ------------------------------------------------------------------ *)
(** ** Presentation helpers ([visualization.py]) and input collection
       ([app.py]) *)

(** [l[i]] on a Python list: negative indices count from the end. *)
Definition py_index {A} (l : list A) (i : Z) : outcome A :=
  let n := Z.of_nat (length l) in
  let j := (if i <? 0 then i + n else i)%Z in
  if ((0 <=? j) && (j <? n))%Z then
    match nth_error l (Z.to_nat j) with
    | Some x => Ret x
    | None => Raise IndexError
    end
  else Raise IndexError.

Definition _PAL : list (list Z) :=
  [ [31; 119; 180]; [255; 127; 14]; [44; 160; 44]; [214; 39; 40];
    [148; 103; 189]; [140; 86; 75]; [227; 119; 194]; [127; 127; 127];
    [188; 189; 34]; [23; 190; 207] ]%Z.

(** [_color]: Python's [%] is the floored modulo, as [Z.modulo]. *)
Definition _color (i : Z) : outcome (list Z) :=
  py_index _PAL (i mod Z.of_nat (length _PAL))%Z.

(** An entry of [edges] in [plot_network]. *)
Record edge : Type := mkEdge {
  edge_f : point;
  edge_t : point;
  edge_color : list Z
}.

(** The list comprehension [edges] of [plot_network]: it stops at the first
    row that raises. *)
Fixpoint plot_edges (stores : list arow) (centers : list point)
    : outcome (list edge) :=
  match stores with
  | [] => Ret []
  | r :: rest =>
      match py_index centers (Z.of_nat (Warehouse r)) with
      | Raise e => Raise e
      | Ret c =>
          match _color (Z.of_nat (Warehouse r)) with
          | Raise e => Raise e
          | Ret col =>
              match plot_edges rest centers with
              | Raise e => Raise e
              | Ret es =>
                  Ret (mkEdge (Longitude (store r), Latitude (store r)) c
                         (col ++ [160%Z]) :: es)
              end
          end
      end
  end.

(** The metrics of [summary] and the column each is written to. *)
Inductive metric : Type := Outbound | Inbound | Transfers | Warehousing.

(** [cols = st.columns(4 if (consider_inbound or show_transfer) else 2)]
    and the [cols[i].metric(...)] calls with their running index [i]. *)
Definition summary_metrics (consider_inbound show_transfer : bool)
    : nat * list (nat * metric) :=
  let ncols := if consider_inbound || show_transfer then 4%nat else 2%nat in
  let i := 0%nat in
  let placed := [(i, Outbound)] in
  let i := S i in
  let '(placed, i) :=
    if consider_inbound then (placed ++ [(i, Inbound)], S i) else (placed, i) in
  let '(placed, i) :=
    if show_transfer then (placed ++ [(i, Transfers)], S i) else (placed, i) in
  (ncols, placed ++ [(i, Warehousing)]).

(** [app.py]: [show_transfer=(len(r.get("rdc_only_idx", [])) > 0 and
    r["trans_cost"] > 0)]; [has_rdc_only] stands for the first test. *)
Definition app_show_transfer (has_rdc_only : bool) (r : Solution) : bool :=
  has_rdc_only && Qltb 0 (trans_cost r).

(** [pd.cut(x, bins=[0, 100, 250, 500, 1000, inf], right=False)]: the index
    of the label, [None] for a value below every bin. *)
Definition bucket (x : Q) : option nat :=
  if Qltb x 0 then None
  else if Qltb x 100 then Some 0%nat
  else if Qltb x 250 then Some 1%nat
  else if Qltb x 500 then Some 2%nat
  else if Qltb x 1000 then Some 3%nat
  else Some 4%nat.

Definition in_bucket (b : nat) (x : Q) : bool :=
  match bucket x with
  | Some b' => Nat.eqb b' b
  | None => false
  end.

(** [buckets.value_counts().sort_index().reindex(labels).fillna(0)]: one
    count per label, in the order of the labels. *)
Definition dist_summary (dist : list Q) : list nat :=
  map (fun b => length (filter (in_bucket b) dist)) (seq 0 5).

(** [app.py], the supply points handed to the solver:
    [[lon, lat, pct / 100] for lon, lat, pct, use in sup if use and pct > 0]. *)
Definition app_inbound_pts (sup : list (Q * Q * Q * bool)) : list supply :=
  map (fun e => let '(lon, lat, pct, _) := e in (lon, lat, pct / 100))
      (filter (fun e => let '(_, _, pct, use) := e in use && Qltb 0 pct) sup).

(** [range(a, b)] *)
Definition py_range (a b : Z) : list Z :=
  map (fun i => (a + Z.of_nat i)%Z) (seq 0 (Z.to_nat (b - a))).

(** What the "Run solver" button does in [render_inputs]. *)
Inductive run_action : Type :=
| WarnUpload                    (* "Upload a CSV first." *)
| WarnSupply                    (* "Enable at least one supply point." *)
| CallOptimize (consider_inbound : bool) (inbound_rate : Q)
    (inbound_pts : list supply).

(** [inbound_rate] and [inbound_pts] are only filled in when the inbound
    box is ticked. *)
Definition run_solver (has_upload inbound_on : bool) (in_rate : Q)
    (sup : list (Q * Q * Q * bool)) : run_action :=
  let inbound_rate := if inbound_on then in_rate else 0 in
  let inbound_pts := if inbound_on then app_inbound_pts sup else [] in
  if negb has_upload then WarnUpload
  else if inbound_on && match inbound_pts with [] => true | _ => false end
  then WarnSupply
  else CallOptimize inbound_on inbound_rate inbound_pts.

(* ------------------------------------------------------------------ *)
(** ** A closed instance for running the program on examples *)

(** A stand-in for numpy's elementary functions: the examples only look at
    the shape of what is computed with them. *)
Definition stub_fn (x : Q) : Q := x.

(** A clustering that answers with the first [n] input points and, like
    [KMeans], refuses [n <= 0] and [n] above the number of points. *)
Definition first_points (n : Z) (pts : list point) : outcome (list point) :=
  if ((0 <? n) && (n <=? Z.of_nat (length pts)))%Z
  then Ret (firstn (Z.to_nat n) pts)
  else Raise ValueError.

(** A routing service that answers every pair with the same duration. *)
Definition flat_service (secs : Q) (h : history) (rq : request)
    : outcome (list (list (option Q))) :=
  Ret (map (fun _ => map (fun _ => Some secs) (req_destinations rq))
           (req_origins rq)).

(** A routing service that answers every request with the same reply. *)
Definition canned_service (reply : list (list (option Q))) (h : history)
    (rq : request) : outcome (list (list (option Q))) :=
  Ret reply.

(** A routing service that is down. *)
Definition down_service (h : history) (rq : request)
    : outcome (list (list (option Q))) :=
  Raise Timeout.

Definition demo_df : dataframe :=
  [mkRow 0 0 100; mkRow 1 0 50; mkRow 0 1 30; mkRow 1 1 20].

Definition demo_supply : list supply := [(2, 2, 1)].

Definition demo_rdcs : list rdc :=
  [mkRdc (3, 3) false; mkRdc (4, 4) false].

(** One supply point half a degree north of the origin, with share 1. *)
Definition half_degree_supply : list supply := [(0, 1 # 2, 1)].

(** The float64 weights written [0.1], [0.2] and [0.3] in Python. *)
Definition float_weights : list float :=
  [0x1.999999999999ap-4; 0x1.999999999999ap-3; 0x1.3333333333333p-2]%float.

(** Three stores carrying these weights: one at the origin, two ten degrees
    north of it.  Each weight is the rational its float64 stands for. *)
Definition float_df : dataframe :=
  [mkRow 0 0 (3602879701896397 # 36028797018963968);
   mkRow 0 10 (3602879701896397 # 18014398509481984);
   mkRow 0 10 (5404319552844595 # 18014398509481984)].

(* ------------------------------------------------------------------ *)
(** ** The program *)

Section Program.

(** numpy's elementary functions on floats. *)
Variable np_radians np_sin np_cos np_arcsin np_sqrt : Q -> Q.

(** [client.distance_matrix(...)["durations"]] of the routing service: what
    the service answers to a request, given the requests sent before it.
    A JSON null duration is [None]. *)
Variable distance_matrix :
  history -> request -> outcome (list (list (option Q))).

(** [KMeans(n_clusters, n_init=10, random_state=42).fit(pts).cluster_centers_]:
    deterministic for a fixed seed; refuses some inputs. *)
Variable KMeans_fit : Z -> list point -> outcome (list point).

(** [_haversine_vec] on one pair of coordinates, in miles. *)
Definition _haversine_vec (lon1 lat1 lon2 lat2 : Q) : Q :=
  let lon1 := np_radians lon1 in
  let lat1 := np_radians lat1 in
  let lon2 := np_radians lon2 in
  let lat2 := np_radians lat2 in
  let dlon := lon2 - lon1 in
  let dlat := lat2 - lat1 in
  let a := np_sin (dlat / 2) ^ 2
           + np_cos lat1 * np_cos lat2 * np_sin (dlon / 2) ^ 2 in
  EARTH_RADIUS_MILES * 2 * np_arcsin (np_sqrt a).

(** The minutes that replace a routed time: miles at 50 mph. *)
Definition fallback_minutes (lon1 lat1 lon2 lat2 : Q) : Q :=
  _haversine_vec lon1 lat1 lon2 lat2 / 50 * 60.

(** [utils.get_drive_time_matrix]: one request; only [ApiError] is handled
    here (the result is then [None]). *)
Definition get_drive_time_matrix (origins destinations : list point)
    (api_key : string) : M (option (list (list (option Q)))) :=
  try_except
    (fun h =>
       let rq := mkRequest origins destinations api_key in
       match distance_matrix h rq with
       | Ret secs => (Ret (Some secs), h ++ [rq])
       | Raise e => (Raise e, h ++ [rq])
       end)
    is_ApiError
    (ret None).

(** [_drive_time_matrix]: minutes, or [None] when unavailable. *)
Definition _drive_time_matrix (orig dest : list point)
    (api_key : option string) : M (option matrix) :=
  match api_key with
  | None => ret None
  | Some key =>
      if String.eqb key EmptyString then ret None
      else
        try_except
          (secs <- get_drive_time_matrix orig dest key ;;
           match secs with
           | None => ret None
           | Some secs =>
               mins <- lift (np_array_div60 secs) ;;
               ret (Some mins)
           end)
          is_Exception
          (ret None)
  end.

(** [mat[0][0]] *)
Definition item00 (mat : matrix) : outcome Q :=
  match mat with
  | (x :: _) :: _ => Ret x
  | _ => Raise IndexError
  end.

Definition _drive_time_single (lon1 lat1 lon2 lat2 : Q)
    (api_key : option string) : M Q :=
  mat <- _drive_time_matrix [(lon1, lat1)] [(lon2, lat2)] api_key ;;
  match mat with
  | Some mat => lift (item00 mat)
  | None => ret (fallback_minutes lon1 lat1 lon2 lat2)
  end.

(** The cast of a float to an integer dtype: towards zero. *)
Definition int_cast (x : Q) : Q :=
  inject_Z (Z.quot (Qnum x) (Zpos (Qden x))).

(** The value that [np.full_like(a, x)] fills with: [x] cast to the dtype of
    [a].  [int_dtype] tells whether [np.asarray(centers)] has an integer
    dtype, which numpy chooses when every coordinate is a Python [int]. *)
Definition full_like_value (int_dtype : bool) (x : Q) : Q :=
  if int_dtype then int_cast x else x.

(** One turn of the loop over [inbound_pts] in [_transfer_time_multi];
    [centers] is known to be non-empty here.  The request carries the supply
    point as given; the fallback goes through [np.full_like(c_lon, lon)] and
    [np.full_like(c_lat, lat)], which take the dtype of the centres. *)
Definition supply_times (centers : list point) (int_dtype : bool)
    (s : supply) (api_key : option string) : M (list Q) :=
  let '(lon, lat, _) := s in
  times <- _drive_time_matrix [(lon, lat)] centers api_key ;;
  match times with
  | None =>
      ret (map (fun c => fallback_minutes (full_like_value int_dtype lon)
                           (full_like_value int_dtype lat) (fst c) (snd c))
               centers)
  | Some [] => raise IndexError
  | Some (t0 :: _) => ret t0
  end.

Fixpoint transfer_loop (inbound_pts : list supply) (centers : list point)
    (int_dtype : bool) (demand_per_wh : list Q) (inbound_rate : Q)
    (api_key : option string) (cost : Q) : M Q :=
  match inbound_pts with
  | [] => ret cost
  | s :: rest =>
      times <- supply_times centers int_dtype s api_key ;;
      prod <- lift (np_mul times demand_per_wh) ;;
      let pct := snd s in
      let term := Qsum (map (fun x => x * pct * inbound_rate) prod) in
      transfer_loop rest centers int_dtype demand_per_wh inbound_rate api_key
        (cost + term)
  end.

(** [_transfer_time_multi]; [int_dtype] is the dtype of
    [np.asarray(centers)], which Python derives from the list itself. *)
Definition _transfer_time_multi (inbound_pts : list supply)
    (centers : list point) (int_dtype : bool) (demand_per_wh : list Q)
    (inbound_rate : Q) (api_key : option string) : M Q :=
  match inbound_pts with
  | [] => ret 0
  | _ =>
      match centers with
      | [] => raise IndexError          (* centers[:, 0] on a 1-D array *)
      | _ => transfer_loop inbound_pts centers int_dtype demand_per_wh
               inbound_rate api_key 0
      end
  end.

Fixpoint rdc_inner_loop (r : point) (inbound_pts : list supply)
    (share inbound_rate : Q) (api_key : option string) (cost : Q) : M Q :=
  match inbound_pts with
  | [] => ret cost
  | (lon, lat, pct) :: rest =>
      tmin <- _drive_time_single (fst r) (snd r) lon lat api_key ;;
      rdc_inner_loop r rest share inbound_rate api_key
        (cost + tmin * share * pct * inbound_rate)
  end.

Fixpoint rdc_outer_loop (rdc_only_coords : list point)
    (inbound_pts : list supply) (share inbound_rate : Q)
    (api_key : option string) (cost : Q) : M Q :=
  match rdc_only_coords with
  | [] => ret cost
  | r :: rest =>
      cost' <- rdc_inner_loop r inbound_pts share inbound_rate api_key cost ;;
      rdc_outer_loop rest inbound_pts share inbound_rate api_key cost'
  end.

Definition _inbound_cost_to_multiple_rdcs (total_demand : Q)
    (inbound_pts : list supply) (inbound_rate : Q)
    (rdc_only_coords : list point) (api_key : option string) : M Q :=
  match inbound_pts, rdc_only_coords with
  | [], _ | _, [] => ret 0
  | _, _ =>
      let share := total_demand / inject_Z (Z.of_nat (length rdc_only_coords)) in
      rdc_outer_loop rdc_only_coords inbound_pts share inbound_rate api_key 0
  end.

(** The matrix [dists] of [_assign], of shape [(len(df), len(centers))]. *)
Definition _dists (df : dataframe) (centers : list point)
    (api_key : option string) : M matrix :=
  let stores := map (fun s => (Longitude s, Latitude s)) df in
  time_mat <- _drive_time_matrix stores centers api_key ;;
  match time_mat with
  | Some tm => lift (broadcast_to (length df) (length centers) tm)
  | None =>
      ret (map (fun s =>
                  map (fun c => fallback_minutes (Longitude s) (Latitude s)
                                  (fst c) (snd c)) centers) df)
  end.

(** [_assign]: the index of the nearest centre and the minutes to it. *)
Definition _assign (df : dataframe) (centers : list point)
    (api_key : option string) : M (list nat * list Q) :=
  dists <- _dists df centers api_key ;;
  match centers with
  | [] => raise ValueError              (* argmin of an empty sequence *)
  | _ =>
      let idx := map argmin_row dists in
      let dist_min := map (fun r => nth (argmin_row r) r 0) dists in
      ret (idx, dist_min)
  end.

(** [centers[i] = x] on a Python list. *)
Fixpoint list_set {A} (i : nat) (x : A) (l : list A) : outcome (list A) :=
  match l, i with
  | [], _ => Raise IndexError
  | _ :: t, O => Ret (x :: t)
  | y :: t, S i' =>
      match list_set i' x t with
      | Ret t' => Ret (y :: t')
      | Raise e => Raise e
      end
  end.

(** [for idx_fc, fc in enumerate(fixed_centers): centers[idx_fc] = fc] *)
Fixpoint override_fixed (idx_fc : nat) (fixed_centers centers : list point)
    : outcome (list point) :=
  match fixed_centers with
  | [] => Ret centers
  | fc :: rest =>
      match list_set idx_fc fc centers with
      | Ret centers' => override_fixed (S idx_fc) rest centers'
      | Raise e => Raise e
      end
  end.

(** [assigned.loc[assigned['Warehouse'] == i, 'DemandLbs'].sum()], in the
    exact arithmetic in which this development reads floats.  The same line
    in any arithmetic, float64 included, is [demand_totals]. *)
Definition demand_at (assigned : list arow) (i : nat) : Q :=
  Qsum (map (fun a => DemandLbs (store a))
            (filter (fun a => Nat.eqb (Warehouse a) i) assigned)).

Fixpoint zip_assigned (df : dataframe) (idx : list nat) (tmin : list Q)
    : list arow :=
  match df, idx, tmin with
  | s :: df', i :: idx', t :: tmin' =>
      mkARow s i t :: zip_assigned df' idx' tmin'
  | _, _, _ => []
  end.

(** The body of the loop over [k_vals], up to the candidate record.
    [fixed_ints] tells whether the caller wrote the coordinates of
    [fixed_centers] as Python [int]s: the centroids of [KMeans] are floats,
    so [np.asarray(centers)] has an integer dtype exactly when the caller did
    and every centre is a fixed one. *)
Definition candidate (df : dataframe) (rate_out_min sqft_per_lb cost_sqft
    fixed_cost : Q) (consider_inbound : bool) (inbound_rate_min : Q)
    (inbound_pts : list supply) (fixed_centers : list point)
    (fixed_ints : bool) (api_key : option string) (kv : Z) : M Solution :=
  let store_coords := map (fun s => (Longitude s, Latitude s)) df in
  let init_pts := store_coords ++ fixed_centers in
  let k_eff := Z.max kv (Z.of_nat (length fixed_centers)) in
  centers0 <- lift (KMeans_fit k_eff init_pts) ;;
  centers <- lift (override_fixed 0 fixed_centers centers0) ;;
  ' (idx, tmin) <- _assign df centers api_key ;;
  let assigned := zip_assigned df idx tmin in
  let out_cost :=
    Qsum (map (fun a => TimeMin a * DemandLbs (store a) * rate_out_min)
              assigned) in
  let demand_list := map (demand_at assigned) (seq 0 (length centers)) in
  let wh_cost :=
    fold_left (fun acc demand =>
                 acc + warehousing_cost demand sqft_per_lb cost_sqft fixed_cost)
              demand_list 0 in
  let trans_cost := 0 in
  let int_dtype :=
    fixed_ints && Nat.eqb (length fixed_centers) (length centers) in
  in_cost <- (if consider_inbound
              then _transfer_time_multi inbound_pts centers int_dtype
                     demand_list inbound_rate_min api_key
              else ret 0) ;;
  let total_cost := out_cost + wh_cost + in_cost + trans_cost in
  ret (mkSolution kv centers assigned out_cost wh_cost in_cost trans_cost
         total_cost demand_list).

(** [if (best is None) or (total_cost < best['total_cost']): best = ...] *)
Definition keep_best (best : option Solution) (s : Solution) : option Solution :=
  match best with
  | None => Some s
  | Some b => if Qltb (total_cost s) (total_cost b) then Some s else Some b
  end.

Fixpoint optimize_loop (body : Z -> M Solution) (k_vals : list Z)
    (best : option Solution) : M (option Solution) :=
  match k_vals with
  | [] => ret best
  | kv :: rest =>
      s <- body kv ;;
      optimize_loop body rest (keep_best best s)
  end.

(** [optimize]; [fixed_ints] is not an argument of the Python function but
    the Python type of the numbers in [fixed_centers] (see [candidate]). *)
Definition optimize (df : dataframe) (k_vals : list Z)
    (rate_out_min sqft_per_lb cost_sqft fixed_cost : Q)
    (consider_inbound : bool) (inbound_rate_min : Q)
    (inbound_pts : option (list supply))
    (fixed_centers : option (list point)) (fixed_ints : bool)
    (rdc_list : option (list rdc)) (transfer_rate_min : Q)
    (rdc_sqft_per_lb rdc_cost_per_sqft : option Q)
    (use_drive_times : bool) (ors_api_key : option string)
    : M (option Solution) :=
  let inbound_pts := or_empty inbound_pts in
  let fixed_centers := or_empty fixed_centers in
  let rdc_list := or_empty rdc_list in
  optimize_loop
    (candidate df rate_out_min sqft_per_lb cost_sqft fixed_cost
       consider_inbound inbound_rate_min inbound_pts fixed_centers fixed_ints
       (if use_drive_times then ors_api_key else None))
    k_vals None.

(** [idx] and [tmin] send each of [n] demand points to the first nearest of
    [m] centres under [travel_time]: the centre's time is at most that of
    every centre, strictly below that of every centre of smaller index, and
    it is the time stored. *)
Definition nearest_assignment (travel_time : nat -> nat -> Q) (n m : nat)
    (idx : list nat) (tmin : list Q) : Prop :=
  length idx = n /\
  length tmin = n /\
  forall i, (i < n)%nat ->
    let a := nth i idx 0%nat in
    (a < m)%nat /\
    (forall j, (j < m)%nat -> travel_time i a <= travel_time i j) /\
    (forall j, (j < a)%nat -> travel_time i a < travel_time i j) /\
    nth i tmin 0 = travel_time i a.

(** A Solution with its [k] entry replaced. *)
Definition with_k (kv : Z) (s : Solution) : Solution :=
  mkSolution kv (centers s) (assigned s) (out_cost s) (wh_cost s) (in_cost s)
    (trans_cost s) (total_cost s) (demand_per_wh s).

(** A computation that sends no request. *)
Definition silent {A} (m : M A) : Prop :=
  forall h, snd (m h) = h.

(** The transfer cost as [_inbound_cost_to_multiple_rdcs] is meant to give
    it: the total demand split evenly over the redistribution centres, and
    for every (centre [i], supply point [j]) pair
    [travel_time * share * p_j * rate]. *)
Definition transfer_formula (travel_time : nat -> nat -> Q) (total_demand : Q)
    (inbound_pts : list supply) (rate : Q) (rdc_only_coords : list point) : Q :=
  let share := total_demand / inject_Z (Z.of_nat (length rdc_only_coords)) in
  Qsum (map (fun i =>
          Qsum (map (fun j =>
                  travel_time i j * share
                  * snd (nth j inbound_pts (0, 0, 0)) * rate)
                (seq 0 (length inbound_pts))))
        (seq 0 (length rdc_only_coords))).

(** Two computations with the same result, whatever the requests sent
    before them. *)
Definition agree {A} (m1 m2 : M A) : Prop :=
  forall h1 h2, fst (m1 h1) = fst (m2 h2).

(** The time vectors of all supply points, looked up in order. *)
Fixpoint supply_times_all (centers : list point) (int_dtype : bool)
    (inbound_pts : list supply) (api_key : option string)
    : M (list (list Q)) :=
  match inbound_pts with
  | [] => ret []
  | s :: rest =>
      times <- supply_times centers int_dtype s api_key ;;
      others <- supply_times_all centers int_dtype rest api_key ;;
      ret (times :: others)
  end.

(** The inbound cost as the specification words it: the sum, over the pairs
    of a supply point [i] and a centre [j], of
    [travel_time * d_j * p_i * rate]. *)
Definition inbound_formula (travel_time : nat -> nat -> Q)
    (inbound_pts : list supply) (demand_per_wh : list Q) (rate : Q) : Q :=
  Qsum (map (fun i =>
          Qsum (map (fun j =>
                  travel_time i j * nth j demand_per_wh 0
                  * snd (nth i inbound_pts (0, 0, 0)) * rate)
                (seq 0 (length demand_per_wh))))
        (seq 0 (length inbound_pts))).

(** The search as the specification words it: every requested [k] is
    evaluated, in order, and the candidates are compared afterwards. *)
Fixpoint eval_all (body : Z -> M Solution) (k_vals : list Z)
    : M (list Solution) :=
  match k_vals with
  | [] => ret []
  | kv :: rest =>
      s <- body kv ;;
      sols <- eval_all body rest ;;
      ret (s :: sols)
  end.

(* ---------------------------------------------------------------- *)
(** ** Arithmetic and list facts *)

Lemma Qltb_lt (x y : Q) : Qltb x y = true <-> x < y.
Proof.
  unfold Qltb. rewrite Qlt_alt. destruct (x ?= y); split; congruence.
Qed.

Lemma Qltb_ge (x y : Q) : Qltb x y = false <-> y <= x.
Proof.
  split; intros H.
  - apply Qnot_lt_le. intros L. apply Qltb_lt in L. congruence.
  - destruct (Qltb x y) eqn:E; trivial.
    apply Qltb_lt in E. exfalso. apply (Qlt_not_le _ _ E H).
Qed.

Lemma fold_Qplus_acc (l : list Q) (a : Q) :
  fold_left Qplus l a == a + Qsum l.
Proof.
  unfold Qsum. revert a.
  induction l as [|x l IH]; intros a; simpl.
  - lra.
  - rewrite (IH (a + x)), (IH (0 + x)). lra.
Qed.

Lemma Qsum_cons (x : Q) (l : list Q) : Qsum (x :: l) == x + Qsum l.
Proof.
  unfold Qsum at 1. simpl. rewrite fold_Qplus_acc. lra.
Qed.

Lemma Qsum_nil : Qsum [] = 0.
Proof. reflexivity. Qed.

Lemma Qsum_app (l1 l2 : list Q) : Qsum (l1 ++ l2) == Qsum l1 + Qsum l2.
Proof.
  induction l1 as [|x l1 IH]; simpl.
  - rewrite Qsum_nil. lra.
  - rewrite !Qsum_cons, IH. lra.
Qed.

(** [argmin_from] continues a scan of [pre ++ l] that has read [pre]. *)
Lemma argmin_from_spec (l pre : list Q) (best_i : nat) (best : Q) :
  (best_i < length pre)%nat ->
  nth best_i (pre ++ l) 0 = best ->
  (forall j, (j < length pre)%nat -> best <= nth j (pre ++ l) 0) ->
  (forall j, (j < best_i)%nat -> best < nth j (pre ++ l) 0) ->
  let a := argmin_from best_i best (length pre) l in
  (a < length (pre ++ l))%nat /\
  (forall j, (j < length (pre ++ l))%nat ->
             nth a (pre ++ l) 0 <= nth j (pre ++ l) 0) /\
  (forall j, (j < a)%nat -> nth a (pre ++ l) 0 < nth j (pre ++ l) 0).
Proof.
  revert pre best_i best.
  induction l as [|x l IH]; intros pre best_i best Hi Hb Hle Hlt; simpl.
  - rewrite app_nil_r in *. rewrite Hb. repeat split; auto.
  - assert (Hx : nth (length pre) (pre ++ x :: l) 0 = x).
    { rewrite app_nth2, Nat.sub_diag by lia. reflexivity. }
    assert (Happ : pre ++ x :: l = (pre ++ [x]) ++ l).
    { rewrite <- app_assoc. reflexivity. }
    assert (Hlen : length (pre ++ [x]) = S (length pre)).
    { rewrite length_app. simpl. lia. }
    destruct (Qltb x best) eqn:E.
    + apply Qltb_lt in E.
      specialize (IH (pre ++ [x]) (length pre) x).
      rewrite Hlen, <- Happ in IH. apply IH; clear IH.
      * lia.
      * exact Hx.
      * intros j Hj. destruct (Nat.eq_dec j (length pre)) as [->|Hne].
        -- rewrite Hx. apply Qle_refl.
        -- apply Qlt_le_weak, Qlt_le_trans with best; auto.
           apply Hle. lia.
      * intros j Hj. apply Qlt_le_trans with best; auto.
    + apply Qltb_ge in E.
      specialize (IH (pre ++ [x]) best_i best).
      rewrite Hlen, <- Happ in IH. apply IH; clear IH.
      * lia.
      * exact Hb.
      * intros j Hj. destruct (Nat.eq_dec j (length pre)) as [->|Hne].
        -- rewrite Hx. exact E.
        -- apply Hle. lia.
      * exact Hlt.
Qed.

Lemma argmin_row_spec (r : list Q) :
  r <> [] ->
  (argmin_row r < length r)%nat /\
  (forall j, (j < length r)%nat -> nth (argmin_row r) r 0 <= nth j r 0) /\
  (forall j, (j < argmin_row r)%nat -> nth (argmin_row r) r 0 < nth j r 0).
Proof.
  destruct r as [|x t]; [congruence|]. intros _.
  unfold argmin_row.
  apply (argmin_from_spec t [x] 0 x); simpl.
  - lia.
  - reflexivity.
  - intros j Hj. assert (j = 0)%nat as -> by lia. apply Qle_refl.
  - intros j Hj. lia.
Qed.

(* ---------------------------------------------------------------- *)
(** ** The travel-time provider *)

Lemma drive_time_matrix_no_key (orig dest : list point)
    (api_key : option string) (h : history) :
  key_missing api_key = true ->
  _drive_time_matrix orig dest api_key h = (Ret None, h).
Proof.
  unfold key_missing, _drive_time_matrix.
  destruct api_key as [key|]; [|reflexivity].
  intros ->. reflexivity.
Qed.

Lemma np_array_div60_exn (secs : list (list (option Q))) (e : exn) :
  np_array_div60 secs = Raise e -> is_Exception e = true.
Proof.
  unfold np_array_div60.
  destruct (negb (regular secs)).
  - intros [= <-]. reflexivity.
  - destruct (all_some (map all_some secs)); [discriminate|].
    intros [= <-]. reflexivity.
Qed.

(** With a key, exactly one request is sent, and every outcome except a
    bare [BaseException] becomes a matrix or [None]. *)
Lemma drive_time_matrix_key (orig dest : list point) (key : string)
    (h : history) :
  String.eqb key EmptyString = false ->
  let rq := mkRequest orig dest key in
  _drive_time_matrix orig dest (Some key) h =
    match distance_matrix h rq with
    | Ret secs =>
        match np_array_div60 secs with
        | Ret mins => (Ret (Some mins), h ++ [rq])
        | Raise _ => (Ret None, h ++ [rq])
        end
    | Raise e =>
        if is_Exception e then (Ret None, h ++ [rq])
        else (Raise e, h ++ [rq])
    end.
Proof.
  intros Hk rq.
  unfold _drive_time_matrix. rewrite Hk.
  unfold try_except, bind, get_drive_time_matrix, try_except, lift, ret.
  fold rq.
  destruct (distance_matrix h rq) as [secs|e].
  - destruct (np_array_div60 secs) as [mins|e] eqn:E; [reflexivity|].
    rewrite (np_array_div60_exn _ _ E). reflexivity.
  - destruct e; reflexivity.
Qed.

Lemma all_some_length {A} (l : list (option A)) (l' : list A) :
  all_some l = Some l' -> length l' = length l.
Proof.
  revert l'. induction l as [|[a|] l IH]; simpl; intros l' H.
  - injection H as <-. reflexivity.
  - destruct (all_some l) as [t|]; [|discriminate].
    injection H as <-. simpl. f_equal. auto.
  - discriminate.
Qed.

Lemma all_some_map_regular {A} (rows : list (list (option A)))
    (rows' : list (list A)) :
  all_some (map all_some rows) = Some rows' ->
  regular rows = true -> regular rows' = true.
Proof.
  destruct rows as [|r rest]; simpl.
  - intros [= <-] _. reflexivity.
  - destruct (all_some r) as [r'|] eqn:Er; [|discriminate].
    destruct (all_some (map all_some rest)) as [rest'|] eqn:Erest;
      [|discriminate].
    intros [= <-]. simpl.
    rewrite (all_some_length _ _ Er).
    clear Er. revert rest' Erest.
    induction rest as [|x rest IH]; simpl; intros rest' Erest Hreg.
    + injection Erest as <-. reflexivity.
    + destruct (all_some x) as [x'|] eqn:Ex; [|discriminate].
      destruct (all_some (map all_some rest)) as [t|]; [|discriminate].
      injection Erest as <-. simpl.
      apply andb_true_iff in Hreg as [H1 H2].
      rewrite (all_some_length _ _ Ex), H1. simpl. auto.
Qed.

Lemma regular_map {A B} (f : A -> B) (rows : list (list A)) :
  regular rows = true -> regular (map (map f) rows) = true.
Proof.
  destruct rows as [|r rest]; simpl; [reflexivity|].
  rewrite length_map. induction rest as [|x rest IH]; simpl; [reflexivity|].
  rewrite length_map. intros H. apply andb_true_iff in H as [H1 H2].
  rewrite H1. simpl. auto.
Qed.

Lemma np_array_div60_regular (secs : list (list (option Q))) (m : matrix) :
  np_array_div60 secs = Ret m -> regular m = true.
Proof.
  unfold np_array_div60.
  destruct (regular secs) eqn:R; simpl; [|discriminate].
  destruct (all_some (map all_some secs)) as [rows|] eqn:E; [|discriminate].
  intros [= <-]. apply regular_map.
  apply (all_some_map_regular _ _ E R).
Qed.

Lemma drive_time_matrix_regular (orig dest : list point)
    (api_key : option string) (h h' : history) (m : matrix) :
  _drive_time_matrix orig dest api_key h = (Ret (Some m), h') ->
  regular m = true.
Proof.
  destruct (key_missing api_key) eqn:K.
  - rewrite drive_time_matrix_no_key by assumption. discriminate.
  - destruct api_key as [key|]; [|discriminate]. simpl in K.
    rewrite drive_time_matrix_key by assumption.
    destruct (distance_matrix _ _) as [secs|e].
    + destruct (np_array_div60 secs) as [mins|e] eqn:E; [|discriminate].
      intros [= <- _]. apply (np_array_div60_regular _ _ E).
    + destruct (is_Exception e); discriminate.
Qed.

Lemma regular_rows (rows : matrix) (r0 r : list Q) :
  regular (r0 :: rows) = true -> In r (r0 :: rows) -> length r = length r0.
Proof.
  simpl. intros H [<-|Hin]; [reflexivity|].
  rewrite forallb_forall in H. apply Nat.eqb_eq. auto.
Qed.

Lemma broadcast_to_shape (n m : nat) (src D : matrix) :
  regular src = true ->
  broadcast_to n m src = Ret D ->
  length D = n /\ forall r, In r D -> length r = m.
Proof.
  intros Hreg. unfold broadcast_to.
  destruct src as [|r0 rows].
  - destruct (Nat.eqb m 0) eqn:Em; [|discriminate].
    apply Nat.eqb_eq in Em. subst m.
    intros [= <-]. split; [apply repeat_length|].
    intros r Hr. apply repeat_spec in Hr. subst r. reflexivity.
  - set (c := length r0). set (r := length (r0 :: rows)).
    destruct ((Nat.eqb r n || Nat.eqb r 1) && (Nat.eqb c m || Nat.eqb c 1))
      eqn:Eok; [|discriminate].
    assert (Hw : forall row, length row = c ->
               length (if Nat.eqb c m then row else repeat (nth 0 row 0) m) = m).
    { intros row Hrow. destruct (Nat.eqb c m) eqn:Ec.
      - apply Nat.eqb_eq in Ec. lia.
      - apply repeat_length. }
    cbv zeta. destruct (Nat.eqb r n) eqn:Er.
    + apply Nat.eqb_eq in Er. intros HD.
      assert (D = map (fun row => if Nat.eqb c m then row
                                  else repeat (nth 0 row 0) m) (r0 :: rows))
        as -> by congruence.
      split.
      * rewrite length_map. exact Er.
      * intros x Hx. apply in_map_iff in Hx as (row & <- & Hrow).
        apply Hw. apply (regular_rows _ _ _ Hreg Hrow).
    + intros [= <-]. split; [apply repeat_length|].
      intros x Hx. apply repeat_spec in Hx. subst x.
      apply Hw. reflexivity.
Qed.

Lemma dists_shape (df : dataframe) (centers : list point)
    (api_key : option string) (h h' : history) (D : matrix) :
  _dists df centers api_key h = (Ret D, h') ->
  length D = length df /\ forall r, In r D -> length r = length centers.
Proof.
  unfold _dists, bind.
  destruct (_drive_time_matrix _ _ _ h) as [[[tm|]|e] h1] eqn:E;
    [| |discriminate].
  - unfold lift. intros [= HD _].
    apply (broadcast_to_shape _ _ tm); [|assumption].
    apply (drive_time_matrix_regular _ _ _ _ _ _ E).
  - unfold ret. intros [= <- _]. split.
    + apply length_map.
    + intros r Hr. apply in_map_iff in Hr as (s & <- & _).
      apply length_map.
Qed.

(* ---------------------------------------------------------------- *)
(** ** Assignment *)

Lemma dists_no_key (df : dataframe) (centers : list point)
    (api_key : option string) (h : history) :
  key_missing api_key = true ->
  _dists df centers api_key h =
    (Ret (map (fun s =>
                 map (fun c => fallback_minutes (Longitude s) (Latitude s)
                                 (fst c) (snd c)) centers) df), h).
Proof.
  intros K. unfold _dists, bind.
  rewrite drive_time_matrix_no_key by assumption. reflexivity.
Qed.

Lemma assign_of_dists (df : dataframe) (centers : list point)
    (api_key : option string) (h h' : history) (D : matrix) :
  centers <> [] ->
  _dists df centers api_key h = (Ret D, h') ->
  _assign df centers api_key h =
    (Ret (map argmin_row D, map (fun r => nth (argmin_row r) r 0) D), h').
Proof.
  intros Hc HD. unfold _assign, bind. rewrite HD.
  destruct centers; [congruence|reflexivity].
Qed.

Lemma assign_rows_spec (df : dataframe) (centers : list point)
    (api_key : option string) (h h' : history) (D : matrix) :
  centers <> [] ->
  _dists df centers api_key h = (Ret D, h') ->
  exists idx tmin,
    _assign df centers api_key h = (Ret (idx, tmin), h') /\
    length idx = length df /\
    length tmin = length df /\
    forall i, (i < length df)%nat ->
      let a := nth i idx 0%nat in
      let r := nth i D [] in
      (a < length centers)%nat /\
      (forall j, (j < length centers)%nat -> nth a r 0 <= nth j r 0) /\
      (forall j, (j < a)%nat -> nth a r 0 < nth j r 0) /\
      nth i tmin 0 = nth a r 0.
Proof.
  intros Hc HD.
  destruct (dists_shape _ _ _ _ _ _ HD) as [Hn Hm].
  exists (map argmin_row D), (map (fun r => nth (argmin_row r) r 0) D).
  split; [apply assign_of_dists; assumption|].
  rewrite !length_map. repeat split; try assumption.
  all: rewrite <- Hn in H.
  all: assert (Hr : In (nth i D []) D) by (apply nth_In; exact H).
  all: assert (Hlen : length (nth i D []) = length centers) by auto.
  all: assert (Hne : nth i D [] <> []).
  all: try (intros E; rewrite E in Hlen; destruct centers;
            [congruence|discriminate]).
  all: destruct (argmin_row_spec _ Hne) as (Ha & Hle & Hlt).
  all: change 0%nat with (argmin_row []).
  all: rewrite map_nth.
  - rewrite <- Hlen. exact Ha.
  - intros j Hj. apply Hle. rewrite Hlen. exact Hj.
  - exact Hlt.
  - exact (map_nth (fun r : list Q => nth (argmin_row r) r 0) D [] i).
Qed.

Lemma nth_map_some {A B} (f : A -> B) (l : list A) (i : nat) (x : A) (d : B) :
  nth_error l i = Some x -> nth i (map f l) d = f x.
Proof.
  intros H. apply nth_error_nth.
  rewrite nth_error_map, H. reflexivity.
Qed.

(** C5: with no credential ([None] or the empty string) the provider
    answers [None] and sends no request; every entry of the matrix used by
    the assignment step, and every stored time, is then
    [_haversine_vec(a, b) / 50 * 60], the haversine being taken on a sphere
    of radius 3958.8 miles after [np.radians] of the four inputs. *)
Theorem fallback_without_credential (orig dest : list point)
    (df : dataframe) (centers : list point) (api_key : option string)
    (h : history) :
  key_missing api_key = true ->
  _drive_time_matrix orig dest api_key h = (Ret None, h) /\
  (exists D,
     _dists df centers api_key h = (Ret D, h) /\
     forall i j s c,
       nth_error df i = Some s -> nth_error centers j = Some c ->
       nth j (nth i D []) 0 =
       _haversine_vec (Longitude s) (Latitude s) (fst c) (snd c) / 50 * 60) /\
  (centers <> [] ->
   exists idx tmin,
     _assign df centers api_key h = (Ret (idx, tmin), h) /\
     forall i s,
       nth_error df i = Some s ->
       exists c,
         nth_error centers (nth i idx 0%nat) = Some c /\
         nth i tmin 0 =
         _haversine_vec (Longitude s) (Latitude s) (fst c) (snd c) / 50 * 60) /\
  (forall lon1 lat1 lon2 lat2,
     _haversine_vec lon1 lat1 lon2 lat2 =
     3958.8 * 2 *
     np_arcsin
       (np_sqrt
          (np_sin ((np_radians lat2 - np_radians lat1) / 2) ^ 2
           + np_cos (np_radians lat1) * np_cos (np_radians lat2)
             * np_sin ((np_radians lon2 - np_radians lon1) / 2) ^ 2))).
Proof.
  intros K.
  pose proof (dists_no_key df centers api_key h K) as HD.
  assert (Hent : forall i j s c,
    nth_error df i = Some s -> nth_error centers j = Some c ->
    nth j (nth i (map (fun s => map (fun c =>
             fallback_minutes (Longitude s) (Latitude s) (fst c) (snd c))
             centers) df) []) 0 =
    _haversine_vec (Longitude s) (Latitude s) (fst c) (snd c) / 50 * 60).
  { intros i j s c Hs Hcj.
    rewrite (nth_map_some _ _ _ _ _ Hs), (nth_map_some _ _ _ _ _ Hcj).
    reflexivity. }
  split; [apply drive_time_matrix_no_key; exact K|].
  split; [eexists; split; [exact HD|exact Hent]|].
  split; [|reflexivity].
  intros Hc.
  destruct (assign_rows_spec _ _ _ _ _ _ Hc HD)
    as (idx & tmin & Ha & _ & _ & Hi).
  exists idx, tmin. split; [exact Ha|].
  intros i s Hs.
  assert (Hlt : (i < length df)%nat).
  { apply nth_error_Some. congruence. }
  destruct (Hi i Hlt) as (Hidx & _ & _ & Ht).
  destruct (nth_error centers (nth i idx 0%nat)) as [c|] eqn:Ec.
  - exists c. split; [reflexivity|].
    rewrite Ht. apply Hent; assumption.
  - apply nth_error_None in Ec. lia.
Qed.

(* ---------------------------------------------------------------- *)
(** ** One candidate *)

Lemma candidate_inv (df : dataframe)
    (rate_out_min sqft_per_lb cost_sqft fixed_cost : Q)
    (consider_inbound : bool) (inbound_rate_min : Q)
    (inbound_pts : list supply) (fixed_centers : list point)
    (fixed_ints : bool) (api_key : option string) (kv : Z) (h h' : history)
    (s : Solution) :
  candidate df rate_out_min sqft_per_lb cost_sqft fixed_cost
    consider_inbound inbound_rate_min inbound_pts fixed_centers fixed_ints
    api_key kv h
    = (Ret s, h') ->
  exists cs0 idx tmin h1,
    KMeans_fit (Z.max kv (Z.of_nat (length fixed_centers)))
      (map (fun r => (Longitude r, Latitude r)) df ++ fixed_centers)
      = Ret cs0 /\
    override_fixed 0 fixed_centers cs0 = Ret (centers s) /\
    _assign df (centers s) api_key h = (Ret (idx, tmin), h1) /\
    (if consider_inbound
     then _transfer_time_multi inbound_pts (centers s)
            (fixed_ints && Nat.eqb (length fixed_centers) (length (centers s)))
            (demand_per_wh s) inbound_rate_min api_key
     else ret 0) h1 = (Ret (in_cost s), h') /\
    k s = kv /\
    assigned s = zip_assigned df idx tmin /\
    demand_per_wh s = map (demand_at (assigned s)) (seq 0 (length (centers s))) /\
    out_cost s =
      Qsum (map (fun a => TimeMin a * DemandLbs (store a) * rate_out_min)
                (assigned s)) /\
    wh_cost s =
      fold_left (fun acc demand =>
                   acc + warehousing_cost demand sqft_per_lb cost_sqft fixed_cost)
                (demand_per_wh s) 0 /\
    trans_cost s = 0 /\
    total_cost s = out_cost s + wh_cost s + in_cost s + trans_cost s.
Proof.
  unfold candidate, bind, lift.
  destruct (KMeans_fit _ _) as [cs0|e]; [|discriminate].
  destruct (override_fixed 0 fixed_centers cs0) as [cs|e] eqn:Eo;
    [|discriminate].
  destruct (_assign df cs api_key h) as [[[idx tmin]|e] h1] eqn:Ea;
    [|discriminate].
  match goal with
  | |- context [(if consider_inbound then ?a else ?b) h1] =>
      destruct ((if consider_inbound then a else b) h1)
        as [[inc|e] h2] eqn:Ei
  end; [|discriminate].
  unfold ret. intros [= <- <-]. simpl.
  exists cs0, idx, tmin, h1. repeat split; auto.
Qed.

Lemma list_set_spec {A} (i : nat) (x : A) (l l' : list A) :
  list_set i x l = Ret l' <->
  (i < length l)%nat /\ l' = firstn i l ++ x :: skipn (S i) l.
Proof.
  revert i l'. induction l as [|y t IH]; intros i l'; simpl.
  - split; [destruct i; discriminate|]. intros [H _]. lia.
  - destruct i as [|i'].
    + simpl. split.
      * intros [= <-]. split; [lia|reflexivity].
      * intros [_ ->]. reflexivity.
    + simpl. destruct (list_set i' x t) as [t'|e] eqn:E.
      * apply IH in E as [Hlt ->]. split.
        -- intros [= <-]. split; [lia|reflexivity].
        -- intros [_ ->]. reflexivity.
      * split; [discriminate|]. intros [Hlt _].
        assert (Hex : list_set i' x t
                      = Ret (firstn i' t ++ x :: skipn (S i') t)).
        { apply IH. split; [lia|reflexivity]. }
        congruence.
Qed.

Lemma override_fixed_spec (fixed_centers cs : list point) (i : nat) :
  (i + length fixed_centers <= length cs)%nat ->
  override_fixed i fixed_centers cs =
    Ret (firstn i cs ++ fixed_centers ++ skipn (i + length fixed_centers) cs).
Proof.
  revert cs i.
  induction fixed_centers as [|fc rest IH]; intros cs i Hlen; simpl in *.
  - rewrite Nat.add_0_r, firstn_skipn. reflexivity.
  - assert (Hset : list_set i fc cs
                   = Ret (firstn i cs ++ fc :: skipn (S i) cs)).
    { apply list_set_spec. split; [lia|reflexivity]. }
    rewrite Hset, IH.
    + f_equal.
      assert (Hf : length (firstn i cs) = i) by (apply firstn_length_le; lia).
      replace (S i) with (length (firstn i cs) + 1)%nat at 1 by lia.
      rewrite firstn_app_2. simpl firstn.
      rewrite skipn_app, Hf.
      rewrite (skipn_all2 (firstn i cs)) by lia.
      replace (S i + length rest - i)%nat with (S (length rest)) by lia.
      change (skipn (S (length rest)) (fc :: skipn (S i) cs))
        with (skipn (length rest) (skipn (S i) cs)).
      rewrite skipn_skipn, <- app_assoc. simpl.
      replace (length rest + S i)%nat with (i + S (length rest))%nat by lia.
      reflexivity.
    + rewrite length_app, firstn_length_le by lia. cbn [length].
      rewrite length_skipn. lia.
Qed.

(* ---------------------------------------------------------------- *)
(** ** The search over [k_vals] *)

Lemma optimize_loop_invariant (P : Solution -> Prop) (body : Z -> M Solution)
    (k_vals : list Z) (best : option Solution) (h h' : history)
    (r : option Solution) :
  (forall kv h0 s h1, In kv k_vals -> body kv h0 = (Ret s, h1) -> P s) ->
  (forall b, best = Some b -> P b) ->
  optimize_loop body k_vals best h = (Ret r, h') ->
  forall s, r = Some s -> P s.
Proof.
  revert best h.
  induction k_vals as [|kv rest IH]; intros best h Hbody Hbest; simpl.
  - unfold ret. intros [= <- _]. exact Hbest.
  - unfold bind. destruct (body kv h) as [[s0|e] h1] eqn:E; [|discriminate].
    apply IH.
    + intros kv' h0 s' h2 Hin. apply Hbody. right. exact Hin.
    + intros b. unfold keep_best.
      assert (P s0) by (apply (Hbody kv h s0 h1); [left; reflexivity|exact E]).
      destruct best as [b0|].
      * destruct (Qltb _ _); intros [= <-]; auto.
      * intros [= <-]. assumption.
Qed.

Lemma optimize_loop_some (body : Z -> M Solution) (k_vals : list Z)
    (best : option Solution) (h h' : history) (r : option Solution) :
  k_vals <> [] \/ best <> None ->
  optimize_loop body k_vals best h = (Ret r, h') ->
  r <> None.
Proof.
  revert best h.
  induction k_vals as [|kv rest IH]; intros best h Hne; simpl.
  - unfold ret. intros [= <- _]. destruct Hne; congruence.
  - unfold bind. destruct (body kv h) as [[s0|e] h1]; [|discriminate].
    apply IH. right. unfold keep_best.
    destruct best; [destruct (Qltb _ _)|]; discriminate.
Qed.

Lemma optimize_loop_eval_all (body : Z -> M Solution) (k_vals : list Z)
    (best : option Solution) (h : history) :
  optimize_loop body k_vals best h =
    match eval_all body k_vals h with
    | (Ret sols, h') => (Ret (fold_left keep_best sols best), h')
    | (Raise e, h') => (Raise e, h')
    end.
Proof.
  revert best h.
  induction k_vals as [|kv rest IH]; intros best h; simpl.
  - reflexivity.
  - unfold bind at 1 2. destruct (body kv h) as [[s|e] h1]; [|reflexivity].
    rewrite IH. unfold bind.
    destruct (eval_all body rest h1) as [[sols|e] h2]; reflexivity.
Qed.

Lemma eval_all_each (P : Z -> Solution -> Prop) (body : Z -> M Solution)
    (k_vals : list Z) (h h' : history) (sols : list Solution) :
  (forall kv h0 s h1, body kv h0 = (Ret s, h1) -> P kv s) ->
  eval_all body k_vals h = (Ret sols, h') ->
  Forall2 P k_vals sols.
Proof.
  intros Hbody. revert h sols.
  induction k_vals as [|kv rest IH]; intros h sols; simpl.
  - unfold ret. intros [= <- _]. constructor.
  - unfold bind. destruct (body kv h) as [[s|e] h1] eqn:E; [|discriminate].
    destruct (eval_all body rest h1) as [[ss|e] h2] eqn:E2; [|discriminate].
    unfold ret. intros [= <- <-].
    constructor; [apply (Hbody _ _ _ _ E)|apply (IH _ _ E2)].
Qed.

(** The fold of [keep_best] continues a scan of [pre ++ l] whose best so far
    is entry [i0] of [pre]. *)
Lemma keep_best_scan (l pre : list Solution) (i0 : nat) (b0 : Solution) :
  nth_error pre i0 = Some b0 ->
  (forall s, In s pre -> total_cost b0 <= total_cost s) ->
  (forall j s, (j < i0)%nat -> nth_error pre j = Some s ->
               total_cost b0 < total_cost s) ->
  exists i b,
    nth_error (pre ++ l) i = Some b /\
    fold_left keep_best l (Some b0) = Some b /\
    (forall s, In s (pre ++ l) -> total_cost b <= total_cost s) /\
    (forall j s, (j < i)%nat -> nth_error (pre ++ l) j = Some s ->
                 total_cost b < total_cost s).
Proof.
  revert pre i0 b0.
  induction l as [|x l IH]; intros pre i0 b0 Hnth Hle Hlt; simpl.
  - exists i0, b0. rewrite app_nil_r. auto.
  - assert (Happ : pre ++ x :: l = (pre ++ [x]) ++ l).
    { rewrite <- app_assoc. reflexivity. }
    assert (Hi0 : (i0 < length pre)%nat).
    { apply nth_error_Some. congruence. }
    rewrite Happ.
    destruct (Qltb (total_cost x) (total_cost b0)) eqn:E.
    + apply Qltb_lt in E.
      apply (IH (pre ++ [x]) (length pre) x).
      * rewrite nth_error_app2, Nat.sub_diag by lia. reflexivity.
      * intros s Hs. apply in_app_iff in Hs as [Hs|[<-|[]]].
        -- apply Qlt_le_weak, Qlt_le_trans with (total_cost b0); auto.
        -- apply Qle_refl.
      * intros j s Hj Hs. rewrite nth_error_app1 in Hs by lia.
        apply Qlt_le_trans with (total_cost b0); [exact E|].
        apply Hle. apply (nth_error_In _ _ Hs).
    + apply Qltb_ge in E.
      apply (IH (pre ++ [x]) i0 b0).
      * rewrite nth_error_app1 by lia. exact Hnth.
      * intros s Hs. apply in_app_iff in Hs as [Hs|[<-|[]]]; auto.
      * intros j s Hj Hs. rewrite nth_error_app1 in Hs by lia.
        apply (Hlt j s Hj Hs).
Qed.

Lemma keep_best_first_minimum (sols : list Solution) :
  sols <> [] ->
  exists i b,
    nth_error sols i = Some b /\
    fold_left keep_best sols None = Some b /\
    (forall s, In s sols -> total_cost b <= total_cost s) /\
    (forall j s, (j < i)%nat -> nth_error sols j = Some s ->
                 total_cost b < total_cost s).
Proof.
  destruct sols as [|x l]; [congruence|]. intros _.
  apply (keep_best_scan l [x] 0 x).
  - reflexivity.
  - intros s [<-|[]]. apply Qle_refl.
  - intros j s Hj. lia.
Qed.

(* ---------------------------------------------------------------- *)
(** ** Demand per centre *)

Lemma Qsum_map_plus {A} (f g : A -> Q) (l : list A) :
  Qsum (map (fun i => f i + g i) l) == Qsum (map f l) + Qsum (map g l).
Proof.
  induction l as [|x l IH]; simpl.
  - rewrite Qsum_nil. lra.
  - rewrite !Qsum_cons, IH. lra.
Qed.

Lemma Qsum_map_ext {A} (f g : A -> Q) (l : list A) :
  (forall x, In x l -> f x == g x) ->
  Qsum (map f l) == Qsum (map g l).
Proof.
  induction l as [|x l IH]; intros H; simpl.
  - reflexivity.
  - rewrite !Qsum_cons, IH, (H x).
    + reflexivity.
    + left. reflexivity.
    + intros y Hy. apply H. right. exact Hy.
Qed.

Lemma Qsum_indicator (w : nat) (d : Q) (n s : nat) :
  Qsum (map (fun i => if Nat.eqb w i then d else 0) (seq s n)) ==
  if (s <=? w)%nat && (w <? s + n)%nat then d else 0.
Proof.
  revert s. induction n as [|n IH]; intros s; simpl.
  - rewrite Qsum_nil.
    destruct (s <=? w)%nat eqn:E1; destruct (w <? s + 0)%nat eqn:E2;
      simpl; try reflexivity.
    apply Nat.leb_le in E1. apply Nat.ltb_lt in E2. lia.
  - rewrite Qsum_cons, IH.
    destruct (Nat.eqb w s) eqn:Ews.
    + apply Nat.eqb_eq in Ews. subst w.
      rewrite Nat.leb_refl.
      replace (S s <=? s)%nat with false
        by (symmetry; apply Nat.leb_gt; lia).
      replace (s <? s + S n)%nat with true
        by (symmetry; apply Nat.ltb_lt; lia).
      simpl. lra.
    + apply Nat.eqb_neq in Ews.
      replace (w <? s + S n)%nat with (w <? S s + n)%nat
        by (f_equal; lia).
      destruct (w <? S s + n)%nat; rewrite ?andb_false_r, ?andb_true_r.
      * destruct (s <=? w)%nat eqn:E1; destruct (S s <=? w)%nat eqn:E2;
          try lra.
        -- apply Nat.leb_le in E1. apply Nat.leb_gt in E2. lia.
        -- apply Nat.leb_gt in E1. apply Nat.leb_le in E2. lia.
      * lra.
Qed.

Lemma demand_at_cons (a : arow) (t : list arow) (i : nat) :
  demand_at (a :: t) i ==
  (if Nat.eqb (Warehouse a) i then DemandLbs (store a) else 0) + demand_at t i.
Proof.
  unfold demand_at. simpl.
  destruct (Nat.eqb (Warehouse a) i); simpl.
  - apply Qsum_cons.
  - lra.
Qed.

(** Each row counts once, at its own centre. *)
Lemma demand_conserved (rows : list arow) (m : nat) :
  (forall a, In a rows -> (Warehouse a < m)%nat) ->
  Qsum (map (demand_at rows) (seq 0 m)) ==
  Qsum (map (fun a => DemandLbs (store a)) rows).
Proof.
  induction rows as [|a t IH]; intros Hw.
  - simpl. rewrite Qsum_nil.
    rewrite (Qsum_map_ext _ (fun _ => 0)).
    + clear. induction (seq 0 m) as [|x l IH]; simpl.
      * reflexivity.
      * rewrite Qsum_cons, IH. lra.
    + intros i _. reflexivity.
  - rewrite (Qsum_map_ext _ _ _ (fun i _ => demand_at_cons a t i)).
    rewrite (Qsum_map_plus
               (fun i => if Nat.eqb (Warehouse a) i
                         then DemandLbs (store a) else 0)
               (demand_at t)).
    rewrite Qsum_indicator, IH.
    + simpl map. rewrite Qsum_cons.
      replace (Warehouse a <? 0 + m)%nat with true.
      * simpl. lra.
      * symmetry. apply Nat.ltb_lt. simpl. apply Hw. left. reflexivity.
    + intros b Hb. apply Hw. right. exact Hb.
Qed.

Lemma zip_assigned_columns (df : dataframe) (idx : list nat) (tmin : list Q) :
  length idx = length df -> length tmin = length df ->
  map store (zip_assigned df idx tmin) = df /\
  map Warehouse (zip_assigned df idx tmin) = idx /\
  map TimeMin (zip_assigned df idx tmin) = tmin.
Proof.
  revert idx tmin.
  induction df as [|s df IH]; intros [|i idx] [|t tmin]; simpl;
    try discriminate; auto.
  intros [= Hi] [= Ht]. destruct (IH idx tmin Hi Ht) as (-> & -> & ->).
  auto.
Qed.

(* ---------------------------------------------------------------- *)
(** ** Inbound cost *)

Lemma Qsum_seq_shift (f : nat -> Q) (s n : nat) :
  Qsum (map f (seq (S s) n)) == Qsum (map (fun i => f (S i)) (seq s n)).
Proof.
  rewrite <- seq_shift, map_map. reflexivity.
Qed.

Lemma np_mul_same_length (a b : list Q) :
  length a = length b ->
  np_mul a b = Ret (map (fun p => fst p * snd p) (combine a b)).
Proof.
  intros H. unfold np_mul. rewrite H, Nat.eqb_refl. reflexivity.
Qed.

(** The term one supply point adds, written over the centre indices. *)
Lemma supply_term_indexed (times demand : list Q) (pct rate : Q) :
  length times = length demand ->
  Qsum (map (fun x => x * pct * rate)
            (map (fun p => fst p * snd p) (combine times demand))) ==
  Qsum (map (fun j => nth j times 0 * nth j demand 0 * pct * rate)
            (seq 0 (length demand))).
Proof.
  revert demand.
  induction times as [|t ts IH]; intros [|d ds]; simpl; try discriminate.
  - reflexivity.
  - intros [= H]. rewrite !Qsum_cons, Qsum_seq_shift, IH by exact H.
    reflexivity.
Qed.

Lemma transfer_loop_indexed (inbound_pts : list supply) (centers : list point)
    (int_dtype : bool) (demand : list Q) (rate : Q) (api_key : option string)
    (cost : Q) (h h' : history) (tss : list (list Q)) :
  supply_times_all centers int_dtype inbound_pts api_key h = (Ret tss, h') ->
  Forall (fun ts => length ts = length demand) tss ->
  exists c,
    transfer_loop inbound_pts centers int_dtype demand rate api_key cost h
      = (Ret c, h') /\
    c == cost + inbound_formula (fun i j => nth j (nth i tss []) 0)
                  inbound_pts demand rate.
Proof.
  revert cost h tss.
  induction inbound_pts as [|sp rest IH]; intros cost h tss; simpl.
  - unfold ret. intros [= <- <-] _. exists cost. split; [reflexivity|].
    unfold inbound_formula. simpl. rewrite Qsum_nil. lra.
  - unfold bind at 1 3.
    destruct (supply_times centers int_dtype sp api_key h) as [[ts|e] h1];
      [|discriminate].
    unfold bind at 1.
    destruct (supply_times_all centers int_dtype rest api_key h1)
      as [[tss'|e] h2] eqn:E;
      [|discriminate].
    unfold ret. intros [= <- <-] Hall.
    inversion Hall as [|? ? Hts Hrest]; subst.
    unfold bind, lift. rewrite (np_mul_same_length _ _ Hts).
    destruct (IH (cost + Qsum (map (fun x => x * snd sp * rate)
                     (map (fun p => fst p * snd p) (combine ts demand))))
                 h1 tss' E Hrest) as (c & Hc & Hval).
    exists c. split; [exact Hc|].
    rewrite Hval. unfold inbound_formula. simpl length. simpl seq.
    cbn [map]. rewrite Qsum_cons, Qsum_seq_shift. cbn [nth].
    rewrite (supply_term_indexed _ _ _ _ Hts). lra.
Qed.

Lemma supply_times_no_key (centers : list point) (int_dtype : bool)
    (sp : supply) (api_key : option string) (h : history) :
  key_missing api_key = true ->
  supply_times centers int_dtype sp api_key h =
    (Ret (map (fun c =>
            fallback_minutes (full_like_value int_dtype (fst (fst sp)))
              (full_like_value int_dtype (snd (fst sp)))
              (fst c) (snd c)) centers), h).
Proof.
  intros K. destruct sp as [[lon lat] pct]. unfold supply_times, bind.
  rewrite drive_time_matrix_no_key by exact K. reflexivity.
Qed.

Lemma supply_times_all_no_key (centers : list point) (int_dtype : bool)
    (inbound_pts : list supply) (api_key : option string) (h : history) :
  key_missing api_key = true ->
  supply_times_all centers int_dtype inbound_pts api_key h =
    (Ret (map (fun sp =>
            map (fun c =>
                   fallback_minutes (full_like_value int_dtype (fst (fst sp)))
                     (full_like_value int_dtype (snd (fst sp)))
                     (fst c) (snd c)) centers) inbound_pts), h).
Proof.
  intros K. induction inbound_pts as [|sp rest IH]; simpl.
  - reflexivity.
  - unfold bind. rewrite supply_times_no_key, IH by exact K. reflexivity.
Qed.

Lemma nth_map_lt {A B} (f : A -> B) (l : list A) (i : nat) (d : A) (d' : B) :
  (i < length l)%nat -> nth i (map f l) d' = f (nth i l d).
Proof.
  intros H. rewrite (nth_indep _ d' (f d)) by (rewrite length_map; exact H).
  apply map_nth.
Qed.

Lemma inbound_formula_ext (T T' : nat -> nat -> Q) (inbound_pts : list supply)
    (demand : list Q) (rate : Q) :
  (forall i j, (i < length inbound_pts)%nat -> (j < length demand)%nat ->
               T i j == T' i j) ->
  inbound_formula T inbound_pts demand rate ==
  inbound_formula T' inbound_pts demand rate.
Proof.
  intros H. unfold inbound_formula.
  apply Qsum_map_ext. intros i Hi. apply in_seq in Hi.
  apply Qsum_map_ext. intros j Hj. apply in_seq in Hj.
  rewrite (H i j) by lia. reflexivity.
Qed.

Lemma transfer_multi_loop (inbound_pts : list supply) (centers : list point)
    (int_dtype : bool) (demand : list Q) (rate : Q)
    (api_key : option string) :
  centers <> [] ->
  _transfer_time_multi inbound_pts centers int_dtype demand rate api_key =
  transfer_loop inbound_pts centers int_dtype demand rate api_key 0.
Proof.
  intros Hc. unfold _transfer_time_multi.
  destruct inbound_pts; [reflexivity|].
  destruct centers; [congruence|reflexivity].
Qed.

Lemma transfer_multi_formula (inbound_pts : list supply)
    (centers : list point) (int_dtype : bool) (demand : list Q) (rate : Q)
    (api_key : option string) (h h' : history) (tss : list (list Q)) :
  centers <> [] ->
  supply_times_all centers int_dtype inbound_pts api_key h = (Ret tss, h') ->
  Forall (fun ts => length ts = length demand) tss ->
  exists c,
    _transfer_time_multi inbound_pts centers int_dtype demand rate api_key h
      = (Ret c, h') /\
    c == inbound_formula (fun i j => nth j (nth i tss []) 0)
           inbound_pts demand rate.
Proof.
  intros Hc Hall Hlen. rewrite transfer_multi_loop by exact Hc.
  destruct (transfer_loop_indexed inbound_pts centers int_dtype demand rate
              api_key 0 h h' tss Hall Hlen) as (c & Hrun & Hval).
  exists c. split; [exact Hrun|]. rewrite Hval. lra.
Qed.

(** Without a key the inbound cost is the formula on the fallback minutes,
    and no request is sent. *)
Lemma transfer_multi_no_key (inbound_pts : list supply)
    (centers : list point) (int_dtype : bool) (demand : list Q) (rate : Q)
    (api_key : option string) (h : history) :
  centers <> [] ->
  length demand = length centers ->
  key_missing api_key = true ->
  exists c,
    _transfer_time_multi inbound_pts centers int_dtype demand rate api_key h
      = (Ret c, h) /\
    c == inbound_formula
           (fun i j =>
              let sp := nth i inbound_pts (0, 0, 0) in
              let c := nth j centers (0, 0) in
              fallback_minutes (full_like_value int_dtype (fst (fst sp)))
                (full_like_value int_dtype (snd (fst sp))) (fst c) (snd c))
           inbound_pts demand rate.
Proof.
  intros Hc Hlen K.
  pose proof (supply_times_all_no_key centers int_dtype inbound_pts api_key
                h K) as Hall.
  destruct (transfer_multi_formula inbound_pts centers int_dtype demand rate
              api_key h h _ Hc Hall) as (c & Hrun & Hval).
  - apply Forall_forall. intros ts Hts.
    apply in_map_iff in Hts as (sp & <- & _).
    rewrite length_map. symmetry. exact Hlen.
  - exists c. split; [exact Hrun|]. rewrite Hval.
    apply inbound_formula_ext. intros i j Hi Hj.
    rewrite (nth_map_lt _ inbound_pts i (0, 0, 0)) by exact Hi.
    rewrite (nth_map_lt _ centers j (0, 0)) by lia.
    reflexivity.
Qed.

(* ---------------------------------------------------------------- *)
(** ** Provider failures *)

Lemma provider_failure_is_Exception (e : exn) :
  provider_failure e = true -> is_Exception e = true.
Proof. destruct e; simpl; congruence. Qed.

Lemma drive_time_matrix_failure (orig dest : list point) (key : string)
    (h : history) (e : exn) :
  String.eqb key EmptyString = false ->
  distance_matrix h (mkRequest orig dest key) = Raise e ->
  is_Exception e = true ->
  _drive_time_matrix orig dest (Some key) h
    = (Ret None, h ++ [mkRequest orig dest key]).
Proof.
  intros Hk Hfail He.
  rewrite drive_time_matrix_key by exact Hk.
  cbv zeta. rewrite Hfail, He. reflexivity.
Qed.

Lemma agree_pure {A} (o : outcome A) : agree (lift o) (lift o).
Proof. intros h1 h2. reflexivity. Qed.

Lemma agree_bind {A B} (m1 m2 : M A) (f1 f2 : A -> M B) :
  agree m1 m2 -> (forall a, agree (f1 a) (f2 a)) ->
  agree (bind m1 f1) (bind m2 f2).
Proof.
  intros Hm Hf h1 h2. unfold bind.
  specialize (Hm h1 h2).
  destruct (m1 h1) as [[a1|e1] h1'], (m2 h2) as [[a2|e2] h2'];
    simpl in Hm; try discriminate.
  - injection Hm as ->. apply Hf.
  - simpl. congruence.
Qed.

Section AlwaysFailing.

Hypothesis always_fails :
  forall h rq, exists e,
    distance_matrix h rq = Raise e /\ provider_failure e = true.

Lemma agree_drive_time_matrix (orig dest : list point)
    (api_key : option string) :
  agree (_drive_time_matrix orig dest api_key)
        (_drive_time_matrix orig dest None).
Proof.
  intros h1 h2.
  destruct (key_missing api_key) eqn:K.
  - rewrite drive_time_matrix_no_key by exact K. reflexivity.
  - destruct api_key as [key|]; [|discriminate]. simpl in K.
    destruct (always_fails h1 (mkRequest orig dest key)) as (e & Hfail & He).
    rewrite (drive_time_matrix_failure _ _ _ _ _ K Hfail).
    + reflexivity.
    + apply provider_failure_is_Exception. exact He.
Qed.

Lemma agree_dists (df : dataframe) (centers : list point)
    (api_key : option string) :
  agree (_dists df centers api_key) (_dists df centers None).
Proof.
  unfold _dists. apply agree_bind.
  - apply agree_drive_time_matrix.
  - intros [tm|]; [apply agree_pure|]. intros h1 h2. reflexivity.
Qed.

Lemma agree_assign (df : dataframe) (centers : list point)
    (api_key : option string) :
  agree (_assign df centers api_key) (_assign df centers None).
Proof.
  unfold _assign. apply agree_bind.
  - apply agree_dists.
  - intros D h1 h2. destruct centers; reflexivity.
Qed.

Lemma agree_supply_times (centers : list point) (int_dtype : bool)
    (sp : supply) (api_key : option string) :
  agree (supply_times centers int_dtype sp api_key)
        (supply_times centers int_dtype sp None).
Proof.
  destruct sp as [[lon lat] pct]. unfold supply_times. apply agree_bind.
  - apply agree_drive_time_matrix.
  - intros [[|t0 tm]|] h1 h2; reflexivity.
Qed.

Lemma agree_transfer_loop (inbound_pts : list supply) (centers : list point)
    (int_dtype : bool) (demand : list Q) (rate : Q)
    (api_key : option string) (cost : Q) :
  agree (transfer_loop inbound_pts centers int_dtype demand rate api_key cost)
        (transfer_loop inbound_pts centers int_dtype demand rate None cost).
Proof.
  revert cost. induction inbound_pts as [|sp rest IH]; intros cost; simpl.
  - intros h1 h2. reflexivity.
  - apply agree_bind; [apply agree_supply_times|]. intros times.
    apply agree_bind; [apply agree_pure|]. intros prod. apply IH.
Qed.

Lemma agree_transfer_multi (inbound_pts : list supply)
    (centers : list point) (int_dtype : bool) (demand : list Q) (rate : Q)
    (api_key : option string) :
  agree (_transfer_time_multi inbound_pts centers int_dtype demand rate
           api_key)
        (_transfer_time_multi inbound_pts centers int_dtype demand rate None).
Proof.
  unfold _transfer_time_multi.
  destruct inbound_pts as [|sp rest]; [intros h1 h2; reflexivity|].
  destruct centers as [|c cs]; [intros h1 h2; reflexivity|].
  apply agree_transfer_loop.
Qed.

Lemma agree_candidate (df : dataframe)
    (rate_out_min sqft_per_lb cost_sqft fixed_cost : Q)
    (consider_inbound : bool) (inbound_rate_min : Q)
    (inbound_pts : list supply) (fixed_centers : list point)
    (fixed_ints : bool) (api_key : option string) (kv : Z) :
  agree (candidate df rate_out_min sqft_per_lb cost_sqft fixed_cost
           consider_inbound inbound_rate_min inbound_pts fixed_centers
           fixed_ints api_key kv)
        (candidate df rate_out_min sqft_per_lb cost_sqft fixed_cost
           consider_inbound inbound_rate_min inbound_pts fixed_centers
           fixed_ints None kv).
Proof.
  unfold candidate.
  apply agree_bind; [apply agree_pure|]. intros cs0.
  apply agree_bind; [apply agree_pure|]. intros cs.
  apply agree_bind; [apply agree_assign|]. intros [idx tmin].
  apply agree_bind.
  - destruct consider_inbound; [apply agree_transfer_multi|].
    intros h1 h2. reflexivity.
  - intros inc h1 h2. reflexivity.
Qed.

Lemma agree_optimize_loop (body1 body2 : Z -> M Solution) (k_vals : list Z)
    (best : option Solution) :
  (forall kv, agree (body1 kv) (body2 kv)) ->
  agree (optimize_loop body1 k_vals best) (optimize_loop body2 k_vals best).
Proof.
  intros Hb. revert best.
  induction k_vals as [|kv rest IH]; intros best; simpl.
  - intros h1 h2. reflexivity.
  - apply agree_bind; [apply Hb|]. intros s. apply IH.
Qed.

End AlwaysFailing.

(* ---------------------------------------------------------------- *)
(** ** Requests sent *)

Lemma silent_ret {A} (a : A) : silent (ret a).
Proof. intros h. reflexivity. Qed.

Lemma silent_lift {A} (o : outcome A) : silent (lift o).
Proof. intros h. reflexivity. Qed.

Lemma silent_bind {A B} (m : M A) (f : A -> M B) :
  silent m -> (forall a, silent (f a)) -> silent (bind m f).
Proof.
  intros Hm Hf h. unfold bind. specialize (Hm h).
  destruct (m h) as [[a|e] h1]; simpl in Hm; subst h1.
  - apply Hf.
  - reflexivity.
Qed.

Lemma silent_drive_time_matrix (orig dest : list point)
    (api_key : option string) :
  key_missing api_key = true -> silent (_drive_time_matrix orig dest api_key).
Proof.
  intros K h. rewrite drive_time_matrix_no_key by exact K. reflexivity.
Qed.

Lemma silent_assign (df : dataframe) (centers : list point)
    (api_key : option string) :
  key_missing api_key = true -> silent (_assign df centers api_key).
Proof.
  intros K. unfold _assign, _dists.
  apply silent_bind.
  - apply silent_bind; [apply silent_drive_time_matrix; exact K|].
    intros [tm|]; [apply silent_lift|apply silent_ret].
  - intros D h. destruct centers; reflexivity.
Qed.

Lemma silent_transfer_multi (inbound_pts : list supply)
    (centers : list point) (int_dtype : bool) (demand : list Q) (rate : Q)
    (api_key : option string) :
  key_missing api_key = true ->
  silent (_transfer_time_multi inbound_pts centers int_dtype demand rate
            api_key).
Proof.
  intros K.
  assert (Hloop : forall pts cost,
            silent (transfer_loop pts centers int_dtype demand rate api_key
                      cost)).
  { induction pts as [|sp rest IH]; intros cost; simpl.
    - apply silent_ret.
    - apply silent_bind.
      + destruct sp as [[lon lat] pct]. unfold supply_times.
        apply silent_bind; [apply silent_drive_time_matrix; exact K|].
        intros [[|t0 tm]|] h; reflexivity.
      + intros times. apply silent_bind; [apply silent_lift|].
        intros prod. apply IH. }
  unfold _transfer_time_multi.
  destruct inbound_pts as [|sp rest]; [apply silent_ret|].
  destruct centers as [|c cs]; [intros h; reflexivity|].
  apply Hloop.
Qed.

Lemma silent_candidate (df : dataframe)
    (rate_out_min sqft_per_lb cost_sqft fixed_cost : Q)
    (consider_inbound : bool) (inbound_rate_min : Q)
    (inbound_pts : list supply) (fixed_centers : list point)
    (fixed_ints : bool) (api_key : option string) (kv : Z) :
  key_missing api_key = true ->
  silent (candidate df rate_out_min sqft_per_lb cost_sqft fixed_cost
            consider_inbound inbound_rate_min inbound_pts fixed_centers
            fixed_ints api_key kv).
Proof.
  intros K. unfold candidate.
  apply silent_bind; [apply silent_lift|]. intros cs0.
  apply silent_bind; [apply silent_lift|]. intros cs.
  apply silent_bind; [apply silent_assign; exact K|]. intros [idx tmin].
  apply silent_bind.
  - destruct consider_inbound; [apply silent_transfer_multi; exact K|].
    apply silent_ret.
  - intros inc. apply silent_ret.
Qed.

Lemma silent_optimize_loop (body : Z -> M Solution) (k_vals : list Z)
    (best : option Solution) :
  (forall kv, silent (body kv)) -> silent (optimize_loop body k_vals best).
Proof.
  intros Hb. revert best.
  induction k_vals as [|kv rest IH]; intros best; simpl.
  - apply silent_ret.
  - apply silent_bind; [apply Hb|]. intros s. apply IH.
Qed.

Lemma drive_time_matrix_history (orig dest : list point) (key : string)
    (h : history) :
  String.eqb key EmptyString = false ->
  snd (_drive_time_matrix orig dest (Some key) h)
    = h ++ [mkRequest orig dest key].
Proof.
  intros Hk. rewrite drive_time_matrix_key by exact Hk. cbv zeta.
  destruct (distance_matrix h _) as [secs|e].
  - destruct (np_array_div60 secs); reflexivity.
  - destruct (is_Exception e); reflexivity.
Qed.

Lemma assign_history (df : dataframe) (centers : list point) (key : string)
    (h : history) :
  String.eqb key EmptyString = false ->
  snd (_assign df centers (Some key) h)
    = h ++ [mkRequest (map (fun s => (Longitude s, Latitude s)) df)
              centers key].
Proof.
  intros Hk. unfold _assign, _dists, bind.
  pose proof (drive_time_matrix_history
                (map (fun s => (Longitude s, Latitude s)) df) centers key h Hk)
    as Hh.
  destruct (_drive_time_matrix _ _ _ h) as [[[tm|]|e] h1]; simpl in Hh;
    subst h1; unfold lift, ret, raise.
  - destruct (broadcast_to _ _ tm); [destruct centers|]; reflexivity.
  - destruct centers; reflexivity.
  - reflexivity.
Qed.

Lemma transfer_loop_history (inbound_pts : list supply)
    (centers : list point) (int_dtype : bool) (demand : list Q) (rate : Q)
    (key : string) (cost c : Q) (h h' : history) :
  String.eqb key EmptyString = false ->
  transfer_loop inbound_pts centers int_dtype demand rate (Some key) cost h
    = (Ret c, h') ->
  h' = h ++ map (fun sp => mkRequest [(fst (fst sp), snd (fst sp))]
                             centers key) inbound_pts.
Proof.
  intros Hk. revert cost h.
  induction inbound_pts as [|sp rest IH]; intros cost h; simpl.
  - unfold ret. intros [= _ <-]. rewrite app_nil_r. reflexivity.
  - unfold bind at 1.
    destruct (supply_times centers int_dtype sp (Some key) h)
      as [[ts|e] h1] eqn:E;
      [|discriminate].
    assert (Hh1 : h1 = h ++ [mkRequest [(fst (fst sp), snd (fst sp))]
                               centers key]).
    { destruct sp as [[lon lat] pct]. unfold supply_times, bind in E.
      pose proof (drive_time_matrix_history [(lon, lat)] centers key h Hk)
        as Hh.
      destruct (_drive_time_matrix _ _ _ h) as [[[[|t0 tm]|]|e] h2];
        simpl in Hh; subst h2; unfold ret, raise in E;
        try discriminate; injection E as _ <-; reflexivity. }
    unfold bind, lift.
    destruct (np_mul ts demand) as [prod|e]; [|discriminate].
    intros Hrest. apply IH in Hrest. rewrite Hrest, Hh1, <- app_assoc.
    reflexivity.
Qed.

(* ---------------------------------------------------------------- *)
(** ** Cost breakdown and the effective [k] *)

Lemma wh_cost_fold (sqft_per_lb cost_sqft fixed_cost : Q) (l : list Q) (a : Q) :
  fold_left (fun acc demand =>
               acc + warehousing_cost demand sqft_per_lb cost_sqft fixed_cost)
            l a ==
  a + (inject_Z (Z.of_nat (length l)) * fixed_cost
       + Qsum l * sqft_per_lb * cost_sqft).
Proof.
  revert a. induction l as [|d l IH]; intros a.
  - simpl. rewrite Qsum_nil. unfold inject_Z. lra.
  - cbn [fold_left length]. rewrite IH, Qsum_cons.
    rewrite Nat2Z.inj_succ. unfold Z.succ. rewrite inject_Z_plus.
    unfold warehousing_cost. change (inject_Z 1) with 1. lra.
Qed.

Lemma optimize_loop_all_return (body : Z -> M Solution) (k_vals : list Z)
    (best : option Solution) (h h' : history) (r : option Solution) :
  optimize_loop body k_vals best h = (Ret r, h') ->
  forall kv, In kv k_vals -> exists h0 s h1, body kv h0 = (Ret s, h1).
Proof.
  revert best h.
  induction k_vals as [|kv0 rest IH]; intros best h; simpl.
  - intros _ kv [].
  - unfold bind. destruct (body kv0 h) as [[s0|e] h1] eqn:E; [|discriminate].
    intros Hrest kv [<-|Hin].
    + exists h, s0, h1. exact E.
    + apply (IH _ _ Hrest kv Hin).
Qed.

Lemma candidate_same_k_eff (df : dataframe)
    (rate_out_min sqft_per_lb cost_sqft fixed_cost : Q)
    (consider_inbound : bool) (inbound_rate_min : Q)
    (inbound_pts : list supply) (fixed_centers : list point)
    (fixed_ints : bool) (api_key : option string) (kv1 kv2 : Z)
    (h : history) :
  Z.max kv1 (Z.of_nat (length fixed_centers))
    = Z.max kv2 (Z.of_nat (length fixed_centers)) ->
  candidate df rate_out_min sqft_per_lb cost_sqft fixed_cost
    consider_inbound inbound_rate_min inbound_pts fixed_centers fixed_ints
    api_key kv1 h
  = match candidate df rate_out_min sqft_per_lb cost_sqft fixed_cost
            consider_inbound inbound_rate_min inbound_pts fixed_centers
            fixed_ints api_key kv2 h with
    | (Ret s, h') => (Ret (with_k kv1 s), h')
    | (Raise e, h') => (Raise e, h')
    end.
Proof.
  intros Hmax. unfold candidate. rewrite Hmax. unfold bind, lift.
  destruct (KMeans_fit _ _) as [cs0|e]; [|reflexivity].
  destruct (override_fixed 0 fixed_centers cs0) as [cs|e]; [|reflexivity].
  destruct (_assign df cs api_key h) as [[[idx tmin]|e] h1]; [|reflexivity].
  match goal with
  | |- context [(if consider_inbound then ?a else ?b) h1] =>
      destruct ((if consider_inbound then a else b) h1) as [[inc|e] h2]
  end; reflexivity.
Qed.

(* ---------------------------------------------------------------- *)
(** ** Replies of the routing service *)

Lemma all_some_map_Some {A} (l : list A) : all_some (map Some l) = Some l.
Proof.
  induction l as [|x l IH]; simpl; [reflexivity|]. rewrite IH. reflexivity.
Qed.

Lemma all_some_rows_Some {A} (rows : list (list A)) :
  all_some (map all_some (map (map Some) rows)) = Some rows.
Proof.
  induction rows as [|r rows IH]; simpl; [reflexivity|].
  rewrite all_some_map_Some, IH. reflexivity.
Qed.

Lemma all_some_has_None {A} (l : list (option A)) :
  In None l -> all_some l = None.
Proof.
  induction l as [|[a|] l IH]; simpl.
  - intros [].
  - intros [H|H]; [discriminate|]. rewrite (IH H). reflexivity.
  - reflexivity.
Qed.

Lemma all_some_rows_has_None {A} (rows : list (list (option A)))
    (row : list (option A)) :
  In row rows -> In None row -> all_some (map all_some rows) = None.
Proof.
  intros Hrow Hnone. apply all_some_has_None.
  rewrite <- (all_some_has_None row Hnone).
  apply in_map. exact Hrow.
Qed.

Lemma regular_of_lengths {A} (rows : list (list A)) (m : nat) :
  Forall (fun r => length r = m) rows -> regular rows = true.
Proof.
  destruct rows as [|r0 rest]; [reflexivity|].
  intros H. inversion H as [|? ? H0 Hrest]; subst. simpl.
  apply forallb_forall. intros r Hr. apply Nat.eqb_eq.
  rewrite Forall_forall in Hrest. auto.
Qed.

Lemma np_array_div60_numbers (durs : list (list Q)) (m : nat) :
  Forall (fun r => length r = m) durs ->
  np_array_div60 (map (map Some) durs)
    = Ret (map (map (fun s => s / 60)) durs).
Proof.
  intros H. unfold np_array_div60.
  rewrite (regular_of_lengths (map (map Some) durs) m).
  - simpl. rewrite all_some_rows_Some. reflexivity.
  - apply Forall_forall. intros r Hr.
    apply in_map_iff in Hr as (r' & <- & Hr').
    rewrite length_map. rewrite Forall_forall in H. auto.
Qed.

Lemma broadcast_to_exact (n m : nat) (src : matrix) :
  src <> [] -> length src = n ->
  Forall (fun r => length r = m) src ->
  broadcast_to n m src = Ret src.
Proof.
  intros Hne Hn Hm. subst n. unfold broadcast_to.
  destruct src as [|r0 rows]; [congruence|].
  assert (Hc : length r0 = m) by (inversion Hm; assumption).
  cbv zeta. rewrite Hc, !Nat.eqb_refl. cbn [orb andb].
  rewrite map_id. reflexivity.
Qed.

(** When the service answers a number for each (store, centre) pair, the
    matrix used by the assignment is its durations divided by 60: seconds
    become minutes and nothing is broadcast. *)
Theorem routed_minutes (df : dataframe) (centers : list point) (key : string)
    (h : history) (durs : list (list Q)) :
  String.eqb key EmptyString = false ->
  df <> [] ->
  distance_matrix h
    (mkRequest (map (fun s => (Longitude s, Latitude s)) df) centers key)
    = Ret (map (map Some) durs) ->
  length durs = length df ->
  Forall (fun r => length r = length centers) durs ->
  _dists df centers (Some key) h =
    (Ret (map (map (fun s => s / 60)) durs),
     h ++ [mkRequest (map (fun s => (Longitude s, Latitude s)) df)
             centers key]).
Proof.
  intros Hk Hdf Hreply Hn Hm.
  unfold _dists, bind.
  rewrite drive_time_matrix_key by exact Hk. cbv zeta.
  rewrite Hreply, (np_array_div60_numbers durs (length centers) Hm).
  unfold lift. rewrite broadcast_to_exact.
  - reflexivity.
  - destruct durs; [|discriminate]. destruct df; [congruence|discriminate].
  - rewrite length_map. exact Hn.
  - apply Forall_forall. intros r Hr.
    apply in_map_iff in Hr as (r' & <- & Hr').
    rewrite length_map. rewrite Forall_forall in Hm. auto.
Qed.

(** A reply that is ragged, or that holds a single null duration, is
    dropped as a whole: the lookup gives [None] and the assignment falls
    back to the haversine minutes for every pair. *)
Theorem unusable_reply_falls_back (df : dataframe) (centers : list point)
    (key : string) (h : history) (secs : list (list (option Q))) :
  String.eqb key EmptyString = false ->
  distance_matrix h
    (mkRequest (map (fun s => (Longitude s, Latitude s)) df) centers key)
    = Ret secs ->
  regular secs = false \/ (exists row, In row secs /\ In None row) ->
  _dists df centers (Some key) h =
    (Ret (map (fun s =>
            map (fun c => fallback_minutes (Longitude s) (Latitude s)
                            (fst c) (snd c)) centers) df),
     h ++ [mkRequest (map (fun s => (Longitude s, Latitude s)) df)
             centers key]).
Proof.
  intros Hk Hreply Hbad.
  unfold _dists, bind.
  rewrite drive_time_matrix_key by exact Hk. cbv zeta. rewrite Hreply.
  assert (Hdiv : exists e, np_array_div60 secs = Raise e).
  { unfold np_array_div60. destruct Hbad as [Hrag|(row & Hrow & Hnone)].
    - rewrite Hrag. simpl. eexists. reflexivity.
    - destruct (negb (regular secs)); [eexists; reflexivity|].
      rewrite (all_some_rows_has_None secs row Hrow Hnone).
      eexists. reflexivity. }
  destruct Hdiv as [e ->]. reflexivity.
Qed.

(** A reply of numbers whose shape cannot be broadcast to
    (stores, centres), or an empty reply, is not recovered: the assignment
    raises [ValueError] after the request. *)
Theorem misshapen_reply_raises (df : dataframe) (centers : list point)
    (key : string) (h : history) (durs : list (list Q)) :
  String.eqb key EmptyString = false ->
  distance_matrix h
    (mkRequest (map (fun s => (Longitude s, Latitude s)) df) centers key)
    = Ret (map (map Some) durs) ->
  regular durs = true ->
  durs = [] \/
  ((length durs <> length df /\ length durs <> 1%nat) \/
   (ncols durs <> length centers /\ ncols durs <> 1%nat)) ->
  _assign df centers (Some key) h =
    (Raise ValueError,
     h ++ [mkRequest (map (fun s => (Longitude s, Latitude s)) df)
             centers key]).
Proof.
  intros Hk Hreply Hreg Hshape.
  assert (Hdiv : np_array_div60 (map (map Some) durs)
                 = Ret (map (map (fun s => s / 60)) durs)).
  { unfold np_array_div60.
    assert (Hr : regular (map (map Some) durs) = true).
    { destruct durs as [|r0 rows]; [reflexivity|]. simpl in *.
      rewrite forallb_forall in *. intros r Hr.
      apply in_map_iff in Hr as (r' & <- & Hr').
      rewrite !length_map. auto. }
    rewrite Hr. simpl. rewrite all_some_rows_Some. reflexivity. }
  unfold _assign, _dists, bind.
  rewrite drive_time_matrix_key by exact Hk. cbv zeta.
  rewrite Hreply, Hdiv. unfold lift.
  destruct Hshape as [->|Hshape].
  - simpl. destruct (Nat.eqb (length centers) 0) eqn:Em; [|reflexivity].
    apply Nat.eqb_eq in Em. destruct centers; [reflexivity|discriminate].
  - destruct durs as [|r0 rows].
    + simpl. destruct (Nat.eqb (length centers) 0) eqn:Em; [|reflexivity].
      apply Nat.eqb_eq in Em. destruct centers; [reflexivity|discriminate].
    + unfold broadcast_to. cbn [map length ncols] in *.
      rewrite !length_map.
      replace ((Nat.eqb (S (length rows)) (length df)
                || Nat.eqb (S (length rows)) 1)
               && (Nat.eqb (length r0) (length centers)
                   || Nat.eqb (length r0) 1)) with false; [reflexivity|].
      symmetry. destruct Hshape as [[H1 H2]|[H1 H2]].
      * apply Nat.eqb_neq in H1, H2. rewrite H1, H2. reflexivity.
      * apply Nat.eqb_neq in H1, H2. rewrite H1, H2. apply andb_false_r.
Qed.

(* ---------------------------------------------------------------- *)
(** ** Single-pair lookups and the transfer helper *)

Lemma map_as_seq {A B} (f : A -> B) (l : list A) (d : A) :
  map f l = map (fun j => f (nth j l d)) (seq 0 (length l)).
Proof.
  induction l as [|x l IH]; simpl; [reflexivity|].
  rewrite <- seq_shift, map_map. f_equal. exact IH.
Qed.

Lemma drive_time_single_no_key (lon1 lat1 lon2 lat2 : Q)
    (api_key : option string) (h : history) :
  key_missing api_key = true ->
  _drive_time_single lon1 lat1 lon2 lat2 api_key h
    = (Ret (fallback_minutes lon1 lat1 lon2 lat2), h).
Proof.
  intros K. unfold _drive_time_single, bind.
  rewrite drive_time_matrix_no_key by exact K. reflexivity.
Qed.

(** [_drive_time_single] sends at most one request for its pair: with no
    key it gives the haversine minutes and sends nothing; a 1 x 1 reply [s]
    gives [s / 60]; a failing lookup gives the haversine minutes; an empty
    reply escapes as [IndexError]. *)
Theorem drive_time_single_cases (lon1 lat1 lon2 lat2 : Q) (key : string)
    (h : history) :
  String.eqb key EmptyString = false ->
  let rq := mkRequest [(lon1, lat1)] [(lon2, lat2)] key in
  (forall api_key,
     key_missing api_key = true ->
     _drive_time_single lon1 lat1 lon2 lat2 api_key h
       = (Ret (fallback_minutes lon1 lat1 lon2 lat2), h)) /\
  (forall s,
     distance_matrix h rq = Ret [[Some s]] ->
     _drive_time_single lon1 lat1 lon2 lat2 (Some key) h
       = (Ret (s / 60), h ++ [rq])) /\
  (forall e,
     distance_matrix h rq = Raise e -> is_Exception e = true ->
     _drive_time_single lon1 lat1 lon2 lat2 (Some key) h
       = (Ret (fallback_minutes lon1 lat1 lon2 lat2), h ++ [rq])) /\
  (distance_matrix h rq = Ret [] \/ distance_matrix h rq = Ret [[]] ->
   _drive_time_single lon1 lat1 lon2 lat2 (Some key) h
     = (Raise IndexError, h ++ [rq])).
Proof.
  intros Hk rq. repeat split.
  - intros api_key K. apply drive_time_single_no_key. exact K.
  - intros s Hreply. unfold _drive_time_single, bind.
    rewrite drive_time_matrix_key by exact Hk. cbv zeta. fold rq.
    rewrite Hreply. reflexivity.
  - intros e Hfail He. unfold _drive_time_single, bind.
    rewrite (drive_time_matrix_failure _ _ _ _ e Hk Hfail He). reflexivity.
  - intros Hreply. unfold _drive_time_single, bind.
    rewrite drive_time_matrix_key by exact Hk. cbv zeta. fold rq.
    destruct Hreply as [-> | ->]; reflexivity.
Qed.

Lemma rdc_inner_no_key (r : point) (inbound_pts : list supply)
    (share rate : Q) (api_key : option string) (cost : Q) (h : history) :
  key_missing api_key = true ->
  exists c,
    rdc_inner_loop r inbound_pts share rate api_key cost h = (Ret c, h) /\
    c == cost
         + Qsum (map (fun sp =>
                   fallback_minutes (fst r) (snd r) (fst (fst sp)) (snd (fst sp))
                   * share * snd sp * rate) inbound_pts).
Proof.
  intros K. revert cost.
  induction inbound_pts as [|[[lon lat] pct] rest IH]; intros cost; simpl.
  - exists cost. split; [reflexivity|]. rewrite Qsum_nil. lra.
  - unfold bind. rewrite drive_time_single_no_key by exact K.
    destruct (IH (cost + fallback_minutes (fst r) (snd r) lon lat
                         * share * pct * rate)) as (c & Hrun & Hval).
    exists c. split; [exact Hrun|].
    rewrite Hval, Qsum_cons. lra.
Qed.

Lemma rdc_outer_no_key (rdc_only_coords : list point)
    (inbound_pts : list supply) (share rate : Q) (api_key : option string)
    (cost : Q) (h : history) :
  key_missing api_key = true ->
  exists c,
    rdc_outer_loop rdc_only_coords inbound_pts share rate api_key cost h
      = (Ret c, h) /\
    c == cost
         + Qsum (map (fun r =>
                   Qsum (map (fun sp =>
                           fallback_minutes (fst r) (snd r)
                             (fst (fst sp)) (snd (fst sp))
                           * share * snd sp * rate) inbound_pts))
                 rdc_only_coords).
Proof.
  intros K. revert cost.
  induction rdc_only_coords as [|r rest IH]; intros cost; simpl.
  - exists cost. split; [reflexivity|]. rewrite Qsum_nil. lra.
  - unfold bind.
    destruct (rdc_inner_no_key r inbound_pts share rate api_key cost h K)
      as (c1 & Hrun1 & Hval1).
    rewrite Hrun1.
    destruct (IH c1) as (c & Hrun & Hval).
    exists c. split; [exact Hrun|].
    rewrite Hval, Hval1, Qsum_cons. lra.
Qed.

(** [_inbound_cost_to_multiple_rdcs] gives [0] and sends nothing when there
    is no supply point or no redistribution centre; without a key it sends
    nothing and gives, for the total demand split evenly over the centres,
    the sum over (centre, supply point) pairs of
    [haversine minutes * share * p * rate]. *)
Theorem rdc_transfer_formula (total_demand : Q) (inbound_pts : list supply)
    (rate : Q) (rdc_only_coords : list point) (api_key : option string)
    (h : history) :
  (inbound_pts = [] \/ rdc_only_coords = [] ->
   _inbound_cost_to_multiple_rdcs total_demand inbound_pts rate
     rdc_only_coords api_key h = (Ret 0, h)) /\
  (key_missing api_key = true ->
   exists c,
     _inbound_cost_to_multiple_rdcs total_demand inbound_pts rate
       rdc_only_coords api_key h = (Ret c, h) /\
     c == transfer_formula
            (fun i j =>
               let r := nth i rdc_only_coords (0, 0) in
               let sp := nth j inbound_pts (0, 0, 0) in
               fallback_minutes (fst r) (snd r) (fst (fst sp)) (snd (fst sp)))
            total_demand inbound_pts rate rdc_only_coords).
Proof.
  split.
  - intros [-> | ->]; [reflexivity|].
    destruct inbound_pts; reflexivity.
  - intros K.
    set (share := total_demand / inject_Z (Z.of_nat (length rdc_only_coords))).
    assert (Hform :
      Qsum (map (fun r =>
              Qsum (map (fun sp =>
                      fallback_minutes (fst r) (snd r)
                        (fst (fst sp)) (snd (fst sp))
                      * share * snd sp * rate) inbound_pts))
            rdc_only_coords) ==
      transfer_formula
        (fun i j =>
           let r := nth i rdc_only_coords (0, 0) in
           let sp := nth j inbound_pts (0, 0, 0) in
           fallback_minutes (fst r) (snd r) (fst (fst sp)) (snd (fst sp)))
        total_demand inbound_pts rate rdc_only_coords).
    { unfold transfer_formula.
      rewrite (map_as_seq _ rdc_only_coords (0, 0)).
      apply Qsum_map_ext. intros i _.
      rewrite (map_as_seq _ inbound_pts (0, 0, 0)). reflexivity. }
    destruct (rdc_outer_no_key rdc_only_coords inbound_pts share rate
                api_key 0 h K) as (c & Hrun & Hval).
    rewrite Hform, Qplus_0_l in Hval.
    destruct inbound_pts as [|sp0 pts] eqn:Ep.
    + exists 0. split; [reflexivity|].
      rewrite <- Hform. clear.
      induction rdc_only_coords as [|r l IH]; simpl.
      * reflexivity.
      * rewrite Qsum_cons, <- IH, Qsum_nil. lra.
    + destruct rdc_only_coords as [|r0 rs] eqn:Er.
      * exists 0. split; reflexivity.
      * exists c. split; [exact Hrun|exact Hval].
Qed.

(* ---------------------------------------------------------------- *)
(** ** The haversine distance *)

(** With elementary functions that respect equality of numbers, an odd sine
    and [sin 0 = sqrt 0 = arcsin 0 = 0], [_haversine_vec] is symmetric in its
    two points and is zero, as are the fallback minutes, from a point to
    itself. *)
Theorem haversine_symmetric_zero :
  (forall x y, x == y -> np_sin x == np_sin y) ->
  (forall x y, x == y -> np_sqrt x == np_sqrt y) ->
  (forall x y, x == y -> np_arcsin x == np_arcsin y) ->
  (forall x, np_sin (- x) == - np_sin x) ->
  np_sin 0 == 0 -> np_sqrt 0 == 0 -> np_arcsin 0 == 0 ->
  (forall lon1 lat1 lon2 lat2,
     _haversine_vec lon1 lat1 lon2 lat2 == _haversine_vec lon2 lat2 lon1 lat1) /\
  (forall lon lat,
     _haversine_vec lon lat lon lat == 0 /\
     fallback_minutes lon lat lon lat == 0).
Proof.
  intros Psin Psqrt Parcsin Hodd Hs0 Hq0 Ha0.
  assert (Hsq : forall a b, np_sin ((a - b) / 2) ^ 2 == np_sin ((b - a) / 2) ^ 2).
  { intros a b.
    assert (E : np_sin ((a - b) / 2) == - np_sin ((b - a) / 2)).
    { rewrite <- Hodd. apply Psin. field. }
    simpl. rewrite E. ring. }
  assert (Hzero : forall lon lat, _haversine_vec lon lat lon lat == 0).
  { intros lon lat. unfold _haversine_vec. cbv zeta.
    assert (Z0 : forall a, np_sin ((a - a) / 2) == 0).
    { intros a. rewrite <- Hs0. apply Psin. field. }
    assert (Ea : np_arcsin
                   (np_sqrt
                      (np_sin ((np_radians lat - np_radians lat) / 2) ^ 2
                       + np_cos (np_radians lat) * np_cos (np_radians lat)
                         * np_sin ((np_radians lon - np_radians lon) / 2) ^ 2))
                 == 0).
    { transitivity (np_arcsin 0); [apply Parcsin|exact Ha0].
      transitivity (np_sqrt 0); [apply Psqrt|exact Hq0].
      simpl. rewrite !Z0. ring. }
    rewrite Ea. ring. }
  split.
  - intros lon1 lat1 lon2 lat2. unfold _haversine_vec. cbv zeta.
    apply Qmult_comp; [reflexivity|].
    apply Parcsin, Psqrt.
    rewrite (Hsq (np_radians lat2) (np_radians lat1)).
    rewrite (Hsq (np_radians lon2) (np_radians lon1)).
    ring.
  - intros lon lat. split; [apply Hzero|].
    unfold fallback_minutes. rewrite Hzero. reflexivity.
Qed.

(* ---------------------------------------------------------------- *)
(** ** Drawing the network *)

Lemma py_index_nat {A} (l : list A) (i : nat) (x : A) :
  nth_error l i = Some x -> py_index l (Z.of_nat i) = Ret x.
Proof.
  intros H. unfold py_index.
  assert (Hlt : (i < length l)%nat) by (apply nth_error_Some; congruence).
  replace (Z.of_nat i <? 0)%Z with false by (symmetry; apply Z.ltb_ge; lia).
  replace (0 <=? Z.of_nat i)%Z with true by (symmetry; apply Z.leb_le; lia).
  replace (Z.of_nat i <? Z.of_nat (length l))%Z with true
    by (symmetry; apply Z.ltb_lt; lia).
  simpl. rewrite Nat2Z.id, H. reflexivity.
Qed.

Lemma color_defined (i : Z) :
  exists c, _color i = Ret c /\ length c = 3%nat.
Proof.
  unfold _color.
  assert (Hm : (0 <= i mod Z.of_nat (length _PAL) < 10)%Z).
  { apply Z.mod_pos_bound. simpl. lia. }
  set (j := (i mod Z.of_nat (length _PAL))%Z) in *.
  assert (Hj : (j = 0 \/ j = 1 \/ j = 2 \/ j = 3 \/ j = 4 \/ j = 5 \/ j = 6
                \/ j = 7 \/ j = 8 \/ j = 9)%Z) by lia.
  destruct Hj as [->|[->|[->|[->|[->|[->|[->|[->|[->| ->]]]]]]]]];
    eexists; split; reflexivity.
Qed.

Lemma plot_edges_in_range (stores : list arow) (centers : list point) :
  (forall r, In r stores -> (Warehouse r < length centers)%nat) ->
  exists es,
    plot_edges stores centers = Ret es /\
    Forall2 (fun r e =>
               edge_f e = (Longitude (store r), Latitude (store r)) /\
               nth_error centers (Warehouse r) = Some (edge_t e) /\
               exists col,
                 _color (Z.of_nat (Warehouse r)) = Ret col /\
                 edge_color e = col ++ [160%Z])
            stores es.
Proof.
  induction stores as [|r rest IH]; intros Hb; simpl.
  - exists []. split; [reflexivity|constructor].
  - destruct (nth_error centers (Warehouse r)) as [c|] eqn:Ec.
    + rewrite (py_index_nat _ _ _ Ec).
      destruct (color_defined (Z.of_nat (Warehouse r))) as (col & Hcol & _).
      rewrite Hcol.
      destruct IH as (es & Hes & Hall).
      { intros r' Hr'. apply Hb. right. exact Hr'. }
      rewrite Hes. eexists. split; [reflexivity|].
      constructor; [|exact Hall]. simpl.
      split; [reflexivity|]. split; [exact Ec|].
      exists col. split; [exact Hcol|reflexivity].
    + apply nth_error_None in Ec.
      specialize (Hb r (or_introl eq_refl)). lia.
Qed.

(* ---------------------------------------------------------------- *)
(** ** The nearest centre *)

Lemma nearest_assignment_ext (T T' : nat -> nat -> Q) (n m : nat)
    (idx : list nat) (tmin : list Q) :
  (forall i j, (i < n)%nat -> (j < m)%nat -> T i j = T' i j) ->
  nearest_assignment T n m idx tmin ->
  nearest_assignment T' n m idx tmin.
Proof.
  intros Hext (Hi & Ht & Hall). split; [exact Hi|]. split; [exact Ht|].
  intros i Hlt. destruct (Hall i Hlt) as (Ha & Hle & Hlow & Hmin).
  cbv zeta in *. repeat split.
  - exact Ha.
  - intros j Hj. rewrite <- !Hext by assumption. apply Hle. exact Hj.
  - intros j Hj. rewrite <- !Hext by (try assumption; lia).
    apply Hlow. exact Hj.
  - rewrite <- Hext by assumption. exact Hmin.
Qed.

Lemma assign_nearest_of_dists (df : dataframe) (centers : list point)
    (api_key : option string) (h h' : history) (D : matrix) :
  centers <> [] ->
  _dists df centers api_key h = (Ret D, h') ->
  exists idx tmin,
    _assign df centers api_key h = (Ret (idx, tmin), h') /\
    nearest_assignment (fun i j => nth j (nth i D []) 0)
      (length df) (length centers) idx tmin.
Proof.
  intros Hc HD.
  destruct (assign_rows_spec _ _ _ _ _ _ Hc HD)
    as (idx & tmin & Ha & Hi & Ht & Hall).
  exists idx, tmin. split; [exact Ha|].
  split; [exact Hi|]. split; [exact Ht|]. exact Hall.
Qed.

Lemma fallback_matrix_entry (df : dataframe) (centers : list point)
    (i j : nat) :
  (i < length df)%nat -> (j < length centers)%nat ->
  nth j (nth i (map (fun s =>
                       map (fun c => fallback_minutes (Longitude s) (Latitude s)
                                       (fst c) (snd c)) centers) df) []) 0
  = fallback_minutes (Longitude (nth i df (mkRow 0 0 0)))
      (Latitude (nth i df (mkRow 0 0 0)))
      (fst (nth j centers (0, 0))) (snd (nth j centers (0, 0))).
Proof.
  intros Hi Hj.
  rewrite (nth_map_lt _ df i (mkRow 0 0 0)) by exact Hi.
  rewrite (nth_map_lt _ centers j (0, 0)) by exact Hj.
  reflexivity.
Qed.

Lemma dists_of_full_reply (df : dataframe) (centers : list point)
    (key : string) (h : history) (durs : list (list Q)) :
  String.eqb key EmptyString = false ->
  df <> [] ->
  distance_matrix h
    (mkRequest (map (fun s => (Longitude s, Latitude s)) df) centers key)
    = Ret (map (map Some) durs) ->
  length durs = length df ->
  Forall (fun r => length r = length centers) durs ->
  _dists df centers (Some key) h =
    (Ret (map (map (fun s => s / 60)) durs),
     h ++ [mkRequest (map (fun s => (Longitude s, Latitude s)) df)
             centers key]).
Proof.
  intros Hk Hdf Hreply Hn Hm.
  unfold _dists, bind.
  rewrite drive_time_matrix_key by exact Hk. cbv zeta.
  rewrite Hreply, (np_array_div60_numbers durs (length centers) Hm).
  unfold lift. rewrite broadcast_to_exact.
  - reflexivity.
  - destruct durs; [|discriminate]. destruct df; [congruence|discriminate].
  - rewrite length_map. exact Hn.
  - apply Forall_forall. intros r Hr.
    apply in_map_iff in Hr as (r' & <- & Hr').
    rewrite length_map. rewrite Forall_forall in Hm. auto.
Qed.

(** C3: for a non-empty centre list, the assignment step gives every demand
    point the first nearest centre and stores that minimum, where the travel
    time of store [i] to centre [j] is: without a key, and after a lookup
    that failed, the haversine minutes between the two; after a reply with a
    number for every pair, that number of seconds divided by 60; and in
    every case the entry [i, j] of the matrix [dists] of the step. *)
Theorem assign_nearest_center (df : dataframe) (centers : list point)
    (api_key : option string) (h : history) :
  centers <> [] ->
  let haversine_minutes := fun i j =>
    fallback_minutes (Longitude (nth i df (mkRow 0 0 0)))
      (Latitude (nth i df (mkRow 0 0 0)))
      (fst (nth j centers (0, 0))) (snd (nth j centers (0, 0))) in
  let rq := fun key =>
    mkRequest (map (fun s => (Longitude s, Latitude s)) df) centers key in
  (key_missing api_key = true ->
   exists idx tmin,
     _assign df centers api_key h = (Ret (idx, tmin), h) /\
     nearest_assignment haversine_minutes (length df) (length centers)
       idx tmin) /\
  (forall key e,
     api_key = Some key -> String.eqb key EmptyString = false ->
     distance_matrix h (rq key) = Raise e -> is_Exception e = true ->
     exists idx tmin,
       _assign df centers api_key h = (Ret (idx, tmin), h ++ [rq key]) /\
       nearest_assignment haversine_minutes (length df) (length centers)
         idx tmin) /\
  (forall key durs,
     api_key = Some key -> String.eqb key EmptyString = false ->
     df <> [] ->
     distance_matrix h (rq key) = Ret (map (map Some) durs) ->
     length durs = length df ->
     Forall (fun r => length r = length centers) durs ->
     exists idx tmin,
       _assign df centers api_key h = (Ret (idx, tmin), h ++ [rq key]) /\
       nearest_assignment (fun i j => nth j (nth i durs []) 0 / 60)
         (length df) (length centers) idx tmin) /\
  (forall D h',
     _dists df centers api_key h = (Ret D, h') ->
     exists idx tmin,
       _assign df centers api_key h = (Ret (idx, tmin), h') /\
       nearest_assignment (fun i j => nth j (nth i D []) 0)
         (length df) (length centers) idx tmin).
Proof.
  intros Hc haversine_minutes rq.
  assert (Hfb : forall h',
            _dists df centers api_key h =
              (Ret (map (fun s =>
                      map (fun c => fallback_minutes (Longitude s) (Latitude s)
                                      (fst c) (snd c)) centers) df), h') ->
            exists idx tmin,
              _assign df centers api_key h = (Ret (idx, tmin), h') /\
              nearest_assignment haversine_minutes (length df)
                (length centers) idx tmin).
  { intros h' HD.
    destruct (assign_nearest_of_dists _ _ _ _ _ _ Hc HD)
      as (idx & tmin & Ha & Hn).
    exists idx, tmin. split; [exact Ha|].
    apply (nearest_assignment_ext _ _ _ _ _ _ (fallback_matrix_entry df centers)).
    exact Hn. }
  split; [|split; [|split]].
  - intros K. apply Hfb. apply dists_no_key. exact K.
  - intros key e -> Hk Hfail He. apply Hfb.
    unfold _dists, bind.
    rewrite (drive_time_matrix_failure _ _ _ _ e Hk Hfail He). reflexivity.
  - intros key durs -> Hk Hdf Hreply Hn Hm.
    pose proof (dists_of_full_reply df centers key h durs Hk Hdf Hreply Hn Hm)
      as HD.
    destruct (assign_nearest_of_dists _ _ _ _ _ _ Hc HD)
      as (idx & tmin & Ha & Hnear).
    exists idx, tmin. split; [exact Ha|].
    apply (nearest_assignment_ext (fun i j =>
             nth j (nth i (map (map (fun s => s / 60)) durs) []) 0)); [|exact Hnear].
    intros i j Hi Hj.
    rewrite (nth_map_lt _ durs i []) by lia.
    assert (Hrow : length (nth i durs []) = length centers).
    { rewrite Forall_forall in Hm. apply Hm. apply nth_In. lia. }
    rewrite (nth_map_lt _ (nth i durs []) j 0) by lia.
    reflexivity.
  - intros D h' HD. apply assign_nearest_of_dists; assumption.
Qed.

(* ---------------------------------------------------------------- *)
(** ** Conservation in an exact arithmetic *)

Section ExactSums.

Context {num : Type} (add : num -> num -> num) (zero : num).
Hypothesis add_assoc : forall x y z, add x (add y z) = add (add x y) z.
Hypothesis add_comm : forall x y, add x y = add y x.
Hypothesis add_zero : forall x, add zero x = x.

Lemma sum_in_order_acc (l : list num) (a : num) :
  fold_left add l a = add a (sum_in_order add zero l).
Proof.
  unfold sum_in_order. revert a.
  induction l as [|x l IH]; intros a; simpl.
  - rewrite add_comm, add_zero. reflexivity.
  - rewrite (IH (add a x)), (IH (add zero x)), add_zero, add_assoc.
    reflexivity.
Qed.

Lemma sum_in_order_cons (x : num) (l : list num) :
  sum_in_order add zero (x :: l) = add x (sum_in_order add zero l).
Proof.
  unfold sum_in_order at 1. simpl. rewrite sum_in_order_acc, add_zero.
  reflexivity.
Qed.

Lemma sum_one_bump (w : nat) (x : num) (f : nat -> num) (n s : nat) :
  sum_in_order add zero
    (map (fun i => if Nat.eqb w i then add x (f i) else f i) (seq s n)) =
  if (s <=? w)%nat && (w <? s + n)%nat
  then add x (sum_in_order add zero (map f (seq s n)))
  else sum_in_order add zero (map f (seq s n)).
Proof.
  revert s. induction n as [|n IH]; intros s.
  - simpl. replace (w <? s + 0)%nat with (w <? s)%nat by (f_equal; lia).
    destruct (s <=? w)%nat eqn:E1; destruct (w <? s)%nat eqn:E2;
      simpl; try reflexivity.
    apply Nat.leb_le in E1. apply Nat.ltb_lt in E2. lia.
  - cbn [seq map]. rewrite !sum_in_order_cons, IH.
    replace (w <? s + S n)%nat with (w <? S s + n)%nat by (f_equal; lia).
    destruct (Nat.eqb w s) eqn:Ews.
    + apply Nat.eqb_eq in Ews. subst w.
      rewrite Nat.leb_refl.
      replace (S s <=? s)%nat with false by (symmetry; apply Nat.leb_gt; lia).
      replace (s <? S s + n)%nat with true by (symmetry; apply Nat.ltb_lt; lia).
      simpl. rewrite add_assoc. reflexivity.
    + apply Nat.eqb_neq in Ews.
      replace (S s <=? w)%nat with (s <=? w)%nat.
      * destruct ((s <=? w)%nat && (w <? S s + n)%nat); [|reflexivity].
        rewrite !add_assoc, (add_comm (f s) x). reflexivity.
      * destruct (s <=? w)%nat eqn:E1; destruct (S s <=? w)%nat eqn:E2;
          try reflexivity.
        -- apply Nat.leb_le in E1. apply Nat.leb_gt in E2. lia.
        -- apply Nat.leb_gt in E1. apply Nat.leb_le in E2. lia.
Qed.

(** With an associative and commutative addition the per-centre totals add
    up to the total of the column. *)
Lemma demand_totals_conserved (warehouse : list nat) (weights : list num)
    (m : nat) :
  length warehouse = length weights ->
  Forall (fun w => (w < m)%nat) warehouse ->
  sum_in_order add zero (demand_totals add zero warehouse weights m)
  = sum_in_order add zero weights.
Proof.
  revert weights.
  induction warehouse as [|w ws IH]; intros [|x xs] Hlen Hall;
    try discriminate Hlen.
  - unfold demand_totals. cbn [combine filter map].
    induction (seq 0 m) as [|i l IHl]; [reflexivity|].
    cbn [map]. rewrite sum_in_order_cons, IHl. apply add_zero.
  - injection Hlen as Hlen. inversion Hall as [|? ? Hw Hws]; subst.
    rewrite sum_in_order_cons, <- (IH xs Hlen Hws).
    unfold demand_totals.
    rewrite (map_ext
               (fun i => sum_in_order add zero
                  (map snd (filter (fun r => Nat.eqb (fst r) i)
                                   (combine (w :: ws) (x :: xs)))))
               (fun i => if Nat.eqb w i
                         then add x (sum_in_order add zero
                                (map snd (filter (fun r => Nat.eqb (fst r) i)
                                                 (combine ws xs))))
                         else sum_in_order add zero
                                (map snd (filter (fun r => Nat.eqb (fst r) i)
                                                 (combine ws xs))))).
    + rewrite sum_one_bump.
      replace ((0 <=? w)%nat && (w <? 0 + m)%nat) with true; [reflexivity|].
      symmetry. apply andb_true_iff. split.
      * apply Nat.leb_le. lia.
      * apply Nat.ltb_lt. simpl. exact Hw.
    + intros i. cbn [combine filter fst]. destruct (Nat.eqb w i).
      * cbn [map snd]. apply sum_in_order_cons.
      * reflexivity.
Qed.

End ExactSums.

Lemma demand_at_as_totals (rows : list arow) (i : nat) :
  demand_at rows i =
  sum_in_order Qplus 0
    (map snd (filter (fun r => Nat.eqb (fst r) i)
                     (combine (map Warehouse rows)
                        (map (fun a => DemandLbs (store a)) rows)))).
Proof.
  unfold demand_at, Qsum, sum_in_order. f_equal.
  induction rows as [|a rows IH]; simpl; [reflexivity|].
  destruct (Nat.eqb (Warehouse a) i); simpl; rewrite IH; reflexivity.
Qed.

(** With a key and a reply that has a number for every centre, the times of
    a supply point are the reply's seconds divided by 60. *)
Lemma supply_times_full_reply (centers : list point) (int_dtype : bool)
    (sp : supply) (key : string) (h : history) (durs : list Q) :
  String.eqb key EmptyString = false ->
  distance_matrix h (mkRequest [fst sp] centers key) = Ret [map Some durs] ->
  supply_times centers int_dtype sp (Some key) h =
    (Ret (map (fun x => x / 60) durs),
     h ++ [mkRequest [fst sp] centers key]).
Proof.
  intros Hk Hreply. destruct sp as [[lon lat] pct].
  unfold supply_times, bind.
  rewrite drive_time_matrix_key by exact Hk. cbv zeta.
  simpl fst in Hreply. rewrite Hreply.
  change [map Some durs] with (map (map Some) [durs]).
  rewrite (np_array_div60_numbers [durs] (length durs))
    by (constructor; [reflexivity|constructor]).
  reflexivity.
Qed.

Lemma supply_times_all_full_reply (centers : list point) (int_dtype : bool)
    (key : string) (pts : list supply) (durs : nat -> list Q) (h : history) :
  String.eqb key EmptyString = false ->
  (forall hh i, (i < length pts)%nat ->
     distance_matrix hh (mkRequest [fst (nth i pts (0, 0, 0))] centers key)
       = Ret [map Some (durs i)]) ->
  exists h',
    supply_times_all centers int_dtype pts (Some key) h =
      (Ret (map (fun i => map (fun x => x / 60) (durs i))
              (seq 0 (length pts))), h').
Proof.
  intros Hk. revert durs h.
  induction pts as [|sp rest IH]; intros durs h Hreply.
  - exists h. reflexivity.
  - assert (H0 : distance_matrix h (mkRequest [fst sp] centers key)
                 = Ret [map Some (durs 0%nat)]).
    { apply (Hreply h 0%nat). simpl. lia. }
    destruct (IH (fun i => durs (S i))
                (h ++ [mkRequest [fst sp] centers key])) as [h' Hrest].
    { intros hh i Hi. apply (Hreply hh (S i)). simpl. lia. }
    exists h'. cbn [supply_times_all]. unfold bind.
    rewrite (supply_times_full_reply _ _ _ _ _ _ Hk H0), Hrest.
    unfold ret. cbn [length seq map].
    rewrite <- seq_shift, map_map. reflexivity.
Qed.

Section Run.

Variable df : dataframe.
Variables rate_out_min sqft_per_lb cost_sqft fixed_cost : Q.
Variable consider_inbound : bool.
Variable inbound_rate_min : Q.
Variable inbound_pts : option (list supply).
Variable fixed_centers : option (list point).
Variable fixed_ints : bool.
Variable use_drive_times : bool.
Variable ors_api_key : option string.

Local Abbreviation fixed := (or_empty fixed_centers).
Local Abbreviation the_key := (if use_drive_times then ors_api_key else None).
Local Abbreviation body :=
  (candidate df rate_out_min sqft_per_lb cost_sqft fixed_cost
     consider_inbound inbound_rate_min (or_empty inbound_pts) fixed
     fixed_ints the_key).
Local Abbreviation run k_vals rdc_list transfer_rate_min rdc_sqft rdc_cost :=
  (optimize df k_vals rate_out_min sqft_per_lb cost_sqft fixed_cost
     consider_inbound inbound_rate_min inbound_pts fixed_centers fixed_ints
     rdc_list transfer_rate_min rdc_sqft rdc_cost
     use_drive_times ors_api_key).

Lemma candidate_centers (kv : Z) (h h' : history) (s : Solution) :
  (forall n pts cs, KMeans_fit n pts = Ret cs -> Z.of_nat (length cs) = n) ->
  body kv h = (Ret s, h') ->
  Z.of_nat (length (centers s)) = Z.max kv (Z.of_nat (length fixed)) /\
  firstn (length fixed) (centers s) = fixed.
Proof.
  intros Hkm Hs.
  destruct (candidate_inv _ _ _ _ _ _ _ _ _ _ _ _ _ _ _ Hs)
    as (cs0 & idx & tmin & h1 & Hfit & Hov & _).
  apply Hkm in Hfit.
  rewrite override_fixed_spec in Hov by lia.
  simpl in Hov. injection Hov as Hov. rewrite <- Hov.
  split.
  - rewrite length_app, length_skipn. lia.
  - rewrite firstn_app, Nat.sub_diag, firstn_all. simpl.
    apply app_nil_r.
Qed.

(** C4: provided [KMeans] returns as many centroids as it is asked for,
    the positional override never fails, and in every Solution built for
    a candidate (hence in the one [optimize] returns) the centre list has
    length [max(k, len(fixed_centers))] and starts with the caller's fixed
    centres, unchanged. *)
Theorem fixed_centers_kept (k_vals : list Z) (rdc_list : option (list rdc))
    (transfer_rate_min : Q) (rdc_sqft_per_lb rdc_cost_per_sqft : option Q)
    (h : history) :
  (forall n pts cs, KMeans_fit n pts = Ret cs -> Z.of_nat (length cs) = n) ->
  (forall kv pts cs0,
     KMeans_fit (Z.max kv (Z.of_nat (length fixed))) pts = Ret cs0 ->
     override_fixed 0 fixed cs0 = Ret (fixed ++ skipn (length fixed) cs0)) /\
  (forall kv h0 s h1,
     body kv h0 = (Ret s, h1) ->
     k s = kv /\
     Z.of_nat (length (centers s)) = Z.max kv (Z.of_nat (length fixed)) /\
     firstn (length fixed) (centers s) = fixed) /\
  (forall s h',
     run k_vals rdc_list transfer_rate_min rdc_sqft_per_lb rdc_cost_per_sqft h
       = (Ret (Some s), h') ->
     Z.of_nat (length (centers s)) = Z.max (k s) (Z.of_nat (length fixed)) /\
     firstn (length fixed) (centers s) = fixed).
Proof.
  intros Hkm.
  assert (Hcand : forall kv h0 s h1,
            body kv h0 = (Ret s, h1) ->
            k s = kv /\
            Z.of_nat (length (centers s)) = Z.max kv (Z.of_nat (length fixed)) /\
            firstn (length fixed) (centers s) = fixed).
  { intros kv h0 s h1 Hs. split.
    - destruct (candidate_inv _ _ _ _ _ _ _ _ _ _ _ _ _ _ _ Hs)
        as (_ & _ & _ & _ & _ & _ & _ & _ & Hk & _).
      exact Hk.
    - apply (candidate_centers kv h0 h1 s Hkm Hs). }
  split; [|split].
  - intros kv pts cs0 Hfit. apply Hkm in Hfit.
    rewrite override_fixed_spec by lia. reflexivity.
  - exact Hcand.
  - intros s h' Hrun.
    apply (optimize_loop_invariant
             (fun s => Z.of_nat (length (centers s))
                       = Z.max (k s) (Z.of_nat (length fixed)) /\
                       firstn (length fixed) (centers s) = fixed)
             body k_vals None h h' (Some s)).
    + intros kv h0 s0 h1 _ Hs0.
      destruct (Hcand _ _ _ _ Hs0) as (Hk & Hlen & Hfix).
      rewrite Hk. split; assumption.
    + discriminate.
    + exact Hrun.
    + reflexivity.
Qed.

Lemma optimize_trans_cost_zero (k_vals : list Z)
    (rdc_list : option (list rdc)) (transfer_rate_min : Q)
    (rdc_sqft_per_lb rdc_cost_per_sqft : option Q) (h h' : history)
    (s : Solution) :
  run k_vals rdc_list transfer_rate_min rdc_sqft_per_lb rdc_cost_per_sqft h
    = (Ret (Some s), h') ->
  trans_cost s = 0.
Proof.
  intros Hrun.
  apply (optimize_loop_invariant (fun s => trans_cost s = 0)
           body k_vals None h h' (Some s)).
  - intros kv h0 s0 h1 _ Hs0.
    destruct (candidate_inv _ _ _ _ _ _ _ _ _ _ _ _ _ _ _ Hs0)
      as (_ & _ & _ & _ & _ & _ & _ & _ & _ & _ & _ & _ & _ & Ht & _).
    exact Ht.
  - discriminate.
  - exact Hrun.
  - reflexivity.
Qed.

(** C9: the transfer component of the Solution that [optimize] returns is
    the literal [0], and the whole outcome of [optimize] is the same for any
    two values of [rdc_list], [transfer_rate_min], [rdc_sqft_per_lb] and
    [rdc_cost_per_sqft]. *)
Theorem rdc_arguments_ignored (k_vals : list Z)
    (rdc_list rdc_list' : option (list rdc))
    (transfer_rate_min transfer_rate_min' : Q)
    (rdc_sqft_per_lb rdc_sqft_per_lb' : option Q)
    (rdc_cost_per_sqft rdc_cost_per_sqft' : option Q) (h : history) :
  run k_vals rdc_list transfer_rate_min rdc_sqft_per_lb rdc_cost_per_sqft h
  = run k_vals rdc_list' transfer_rate_min' rdc_sqft_per_lb' rdc_cost_per_sqft' h
  /\
  forall s h',
    run k_vals rdc_list transfer_rate_min rdc_sqft_per_lb rdc_cost_per_sqft h
      = (Ret (Some s), h') ->
    trans_cost s = 0.
Proof.
  split; [reflexivity|].
  intros s h'. apply optimize_trans_cost_zero.
Qed.

(** C10: on an empty [k_vals] [optimize] returns [None], sends no request
    and does not raise; on a non-empty one, whatever it returns is a
    Solution whose [k] is one of the candidates. *)
Theorem empty_or_member (k_vals : list Z) (rdc_list : option (list rdc))
    (transfer_rate_min : Q) (rdc_sqft_per_lb rdc_cost_per_sqft : option Q)
    (h : history) :
  run [] rdc_list transfer_rate_min rdc_sqft_per_lb rdc_cost_per_sqft h
    = (Ret None, h) /\
  forall r h',
    k_vals <> [] ->
    run k_vals rdc_list transfer_rate_min rdc_sqft_per_lb rdc_cost_per_sqft h
      = (Ret r, h') ->
    exists s, r = Some s /\ In (k s) k_vals.
Proof.
  split; [reflexivity|].
  intros r h' Hne Hrun.
  destruct r as [s|].
  - exists s. split; [reflexivity|].
    apply (optimize_loop_invariant (fun s => In (k s) k_vals)
             body k_vals None h h' (Some s)).
    + intros kv h0 s0 h1 Hin Hs0.
      destruct (candidate_inv _ _ _ _ _ _ _ _ _ _ _ _ _ _ _ Hs0)
        as (_ & _ & _ & _ & _ & _ & _ & _ & Hk & _).
      rewrite Hk. exact Hin.
    + discriminate.
    + exact Hrun.
    + reflexivity.
  - exfalso. apply (optimize_loop_some body k_vals None h h' None).
    + left. exact Hne.
    + exact Hrun.
    + reflexivity.
Qed.

(** C2: for a non-empty [k_vals], [optimize] behaves as evaluating every
    requested [k] in order (it raises exactly when one of the evaluations
    raises, and sends the same requests) and then returning the candidate
    of least total cost, the earliest one among equals; the first candidate
    becomes the best, a later one replaces it only when strictly cheaper. *)
Theorem optimize_returns_first_minimum (k_vals : list Z)
    (rdc_list : option (list rdc)) (transfer_rate_min : Q)
    (rdc_sqft_per_lb rdc_cost_per_sqft : option Q) (h : history) :
  k_vals <> [] ->
  (forall s, keep_best None s = Some s) /\
  (forall b s, keep_best (Some b) s =
               if Qltb (total_cost s) (total_cost b) then Some s else Some b) /\
  match eval_all body k_vals h with
  | (Raise e, h') =>
      run k_vals rdc_list transfer_rate_min rdc_sqft_per_lb rdc_cost_per_sqft h
        = (Raise e, h')
  | (Ret sols, h') =>
      map k sols = k_vals /\
      exists i b,
        nth_error sols i = Some b /\
        run k_vals rdc_list transfer_rate_min rdc_sqft_per_lb rdc_cost_per_sqft h
          = (Ret (Some b), h') /\
        (forall s, In s sols -> total_cost b <= total_cost s) /\
        (forall j s, (j < i)%nat -> nth_error sols j = Some s ->
                     total_cost b < total_cost s)
  end.
Proof.
  intros Hne. split; [reflexivity|]. split; [reflexivity|].
  unfold optimize. rewrite optimize_loop_eval_all.
  destruct (eval_all body k_vals h) as [[sols|e] h'] eqn:E; [|reflexivity].
  assert (Hks : Forall2 (fun kv s => k s = kv) k_vals sols).
  { apply (eval_all_each _ body k_vals h h' sols); [|exact E].
    intros kv h0 s h1 Hs.
    destruct (candidate_inv _ _ _ _ _ _ _ _ _ _ _ _ _ _ _ Hs)
      as (_ & _ & _ & _ & _ & _ & _ & _ & Hk & _).
    exact Hk. }
  split.
  - clear E Hne. induction Hks as [|kv s ks ss Hk _ IH]; simpl; congruence.
  - assert (Hsols : sols <> []).
    { intros ->. inversion Hks. congruence. }
    destruct (keep_best_first_minimum sols Hsols) as (i & b & Hi & Hf & Hle & Hlt).
    exists i, b. rewrite Hf. auto.
Qed.

(** C6 (amended): in every Solution built for a candidate, the rows of
    [assigned] are the input rows, each with one centre index below the
    number of centres, and there is one demand total per centre.  The totals
    add up to the total demand of the input table when the additions are
    exact: for a column of weights in any arithmetic whose addition is
    associative and commutative (integers), and in the rational arithmetic
    of this model.  In float64 the two sums agree only up to rounding. *)
Theorem demand_is_conserved (kv : Z) (h h' : history) (s : Solution) :
  body kv h = (Ret s, h') ->
  map store (assigned s) = df /\
  (forall a, In a (assigned s) -> (Warehouse a < length (centers s))%nat) /\
  length (demand_per_wh s) = length (centers s) /\
  demand_per_wh s =
    demand_totals Qplus 0 (map Warehouse (assigned s)) (map DemandLbs df)
      (length (centers s)) /\
  Qsum (demand_per_wh s) == Qsum (map DemandLbs df) /\
  (forall (num : Type) (add : num -> num -> num) (zero : num)
          (weights : list num),
     length weights = length df ->
     (forall x y z, add x (add y z) = add (add x y) z) ->
     (forall x y, add x y = add y x) ->
     (forall x, add zero x = x) ->
     sum_in_order add zero
       (demand_totals add zero (map Warehouse (assigned s)) weights
          (length (centers s)))
     = sum_in_order add zero weights).
Proof.
  intros Hs.
  destruct (candidate_inv _ _ _ _ _ _ _ _ _ _ _ _ _ _ _ Hs)
    as (cs0 & idx & tmin & h1 & _ & _ & Ha & _ & _ & Has & Hd & _).
  assert (Hc : centers s <> []).
  { intros Hnil. unfold _assign, bind in Ha. rewrite Hnil in Ha.
    destruct (_dists df [] the_key h) as [[D|e] h2]; discriminate. }
  unfold _assign, bind in Ha.
  destruct (_dists df (centers s) the_key h) as [[D|e] h2] eqn:HD;
    [|discriminate].
  destruct (assign_rows_spec _ _ _ _ _ _ Hc HD)
    as (idx' & tmin' & Ha' & Hli & Hlt & Hrows).
  unfold _assign, bind in Ha'. rewrite HD in Ha'.
  rewrite Ha' in Ha. injection Ha as -> -> ->.
  destruct (zip_assigned_columns df idx tmin Hli Hlt) as (Hst & Hwh & _).
  assert (Hbound : forall a, In a (assigned s) ->
                             (Warehouse a < length (centers s))%nat).
  { intros a Hin. rewrite Has in Hin.
    apply In_nth_error in Hin as [i Hi].
    assert (Hilt : (i < length df)%nat).
    { rewrite <- Hst, length_map. apply nth_error_Some. congruence. }
    destruct (Hrows i Hilt) as (Hb & _).
    replace (Warehouse a) with (nth i idx 0%nat); [exact Hb|].
    rewrite <- Hwh. apply nth_map_some. exact Hi. }
  assert (Hstore : map store (assigned s) = df) by (rewrite Has; exact Hst).
  split; [exact Hstore|]. split; [exact Hbound|].
  split; [rewrite Hd, length_map, length_seq; reflexivity|].
  split; [|split].
  - rewrite Hd. unfold demand_totals. apply map_ext. intros i.
    rewrite demand_at_as_totals, <- Hstore at 1.
    rewrite (map_map store DemandLbs). reflexivity.
  - rewrite Hd, (demand_conserved _ _ Hbound).
    rewrite <- (map_map store DemandLbs), Hstore. reflexivity.
  - intros num add zero weights Hlen Hassoc Hcomm Hzero.
    apply demand_totals_conserved; try assumption.
    + rewrite length_map, <- (length_map store), Hstore. symmetry. exact Hlen.
    + apply Forall_forall. intros w Hw.
      apply in_map_iff in Hw as (a & <- & Hin). apply Hbound. exact Hin.
Qed.

(** What the inbound component of a candidate's Solution is: [0] with
    inbound disabled; with inbound enabled, what [_transfer_time_multi]
    returns on the Solution's centres and per-centre demand, the sum over
    (supply point, centre) pairs of [time * d_c * p * rate].  Without a key
    the time is the fallback from the supply point as [np.full_like] casts
    it to the dtype of the centres. *)
Lemma candidate_inbound_cost (kv : Z) (h h' : history) (s : Solution) :
  body kv h = (Ret s, h') ->
  (consider_inbound = false -> in_cost s = 0) /\
  (consider_inbound = true ->
   exists h1,
     _transfer_time_multi (or_empty inbound_pts) (centers s)
       (fixed_ints && Nat.eqb (length fixed) (length (centers s)))
       (demand_per_wh s) inbound_rate_min the_key h1
       = (Ret (in_cost s), h') /\
     (key_missing the_key = true ->
      in_cost s ==
      inbound_formula
        (fun i j =>
           let int_dtype :=
             fixed_ints && Nat.eqb (length fixed) (length (centers s)) in
           let sp := nth i (or_empty inbound_pts) (0, 0, 0) in
           let c := nth j (centers s) (0, 0) in
           fallback_minutes (full_like_value int_dtype (fst (fst sp)))
             (full_like_value int_dtype (snd (fst sp))) (fst c) (snd c))
        (or_empty inbound_pts) (demand_per_wh s) inbound_rate_min)).
Proof.
  intros Hs.
  destruct (candidate_inv _ _ _ _ _ _ _ _ _ _ _ _ _ _ _ Hs)
    as (cs0 & idx & tmin & h1 & _ & _ & Ha & Hin & _ & _ & Hd & _).
  assert (Hc : centers s <> []).
  { intros Hnil. unfold _assign, bind in Ha. rewrite Hnil in Ha.
    destruct (_dists df [] the_key h) as [[D|e] h2]; discriminate. }
  assert (Hlen : length (demand_per_wh s) = length (centers s)).
  { rewrite Hd, length_map, length_seq. reflexivity. }
  split.
  - intros Hoff. rewrite Hoff in Hin. unfold ret in Hin. congruence.
  - intros Hon. rewrite Hon in Hin. exists h1.
    split; [exact Hin|].
    intros K.
    destruct (transfer_multi_no_key (or_empty inbound_pts) (centers s)
                (fixed_ints && Nat.eqb (length fixed) (length (centers s)))
                (demand_per_wh s) inbound_rate_min the_key h1 Hc Hlen K)
      as (c & Hrun & Hval).
    rewrite Hrun in Hin. injection Hin as <- _. exact Hval.
Qed.

(** C7 (defect of the code): the inbound component is 0 when inbound is off.
    When it is on and no key is configured, the component is the double sum
    of the claim, over every supply point (share [p], rate [r]) and every
    centre [c] with demand [d_c], of [travel_time * d_c * p * r], only as long
    as the array of centres has a float dtype.  When every centre is a fixed
    centre given with integer coordinates, [np.asarray(centers)] is an integer
    array, [np.full_like(c_lon, lon)] and [np.full_like(c_lat, lat)] cast the
    supply point to that dtype, and the travel time that enters the sum is
    measured from the supply point with both coordinates truncated towards
    zero, not from the supply point.  With a key, and a service that
    answers every request with a number of seconds for every centre, the
    component is the double sum on those seconds divided by 60. *)
Theorem inbound_cost_truncates_supply (kv : Z) (h h' : history)
    (s : Solution) :
  body kv h = (Ret s, h') ->
  let supply_minutes := fun (cast : Q -> Q) (i j : nat) =>
    let sp := nth i (or_empty inbound_pts) (0, 0, 0) in
    let c := nth j (centers s) (0, 0) in
    fallback_minutes (cast (fst (fst sp))) (cast (snd (fst sp)))
      (fst c) (snd c) in
  let integer_centers :=
    fixed_ints && Nat.eqb (length fixed) (length (centers s)) in
  (consider_inbound = false -> in_cost s = 0) /\
  (consider_inbound = true -> key_missing the_key = true ->
   integer_centers = false ->
   in_cost s ==
   inbound_formula (supply_minutes (fun x => x)) (or_empty inbound_pts)
     (demand_per_wh s) inbound_rate_min) /\
  (consider_inbound = true -> key_missing the_key = true ->
   integer_centers = true ->
   in_cost s ==
   inbound_formula (supply_minutes int_cast) (or_empty inbound_pts)
     (demand_per_wh s) inbound_rate_min) /\
  (forall (key : string) (durs : nat -> list Q),
     consider_inbound = true -> the_key = Some key ->
     String.eqb key EmptyString = false ->
     (forall hh i, (i < length (or_empty inbound_pts))%nat ->
        distance_matrix hh
          (mkRequest [fst (nth i (or_empty inbound_pts) (0, 0, 0))]
             (centers s) key)
          = Ret [map Some (durs i)] /\
        length (durs i) = length (centers s)) ->
     in_cost s ==
     inbound_formula (fun i j => nth j (durs i) 0 / 60)
       (or_empty inbound_pts) (demand_per_wh s) inbound_rate_min).
Proof.
  intros Hs. cbv zeta.
  destruct (candidate_inbound_cost kv h h' s Hs) as [Hoff Hon].
  split; [exact Hoff|].
  split; [|split].
  - intros Hin K Hd. destruct (Hon Hin) as (h1 & _ & Hval).
    specialize (Hval K). cbv zeta in Hval. rewrite Hd in Hval. exact Hval.
  - intros Hin K Hd. destruct (Hon Hin) as (h1 & _ & Hval).
    specialize (Hval K). cbv zeta in Hval. rewrite Hd in Hval. exact Hval.
  - intros key durs Hin Hkey Hk Hreply.
    destruct (Hon Hin) as (h1 & Hrun & _). rewrite Hkey in Hrun.
    destruct (candidate_inv _ _ _ _ _ _ _ _ _ _ _ _ _ _ _ Hs)
      as (cs0 & idx & tmin & h0 & _ & _ & Ha & _ & _ & _ & Hd & _).
    assert (Hc : centers s <> []).
    { intros Hnil. unfold _assign, bind in Ha. rewrite Hnil in Ha.
      destruct (_dists df [] the_key h) as [[D|e] h2]; discriminate. }
    assert (Hlen : length (demand_per_wh s) = length (centers s)).
    { rewrite Hd, length_map, length_seq. reflexivity. }
    destruct (supply_times_all_full_reply (centers s)
                (fixed_ints && Nat.eqb (length fixed) (length (centers s)))
                key (or_empty inbound_pts) durs h1 Hk) as [h2 Hall].
    { intros hh i Hi. apply (Hreply hh i Hi). }
    destruct (transfer_multi_formula _ _ _ (demand_per_wh s) inbound_rate_min
                _ _ _ _ Hc Hall) as (c & Hrun' & Hval).
    { apply Forall_forall. intros ts Hts.
      apply in_map_iff in Hts as (i & <- & Hi). apply in_seq in Hi.
      rewrite length_map, Hlen. apply (Hreply h1 i). lia. }
    rewrite Hrun' in Hrun. injection Hrun as Hc' _.
    rewrite <- Hc', Hval. apply inbound_formula_ext. intros i j Hi Hj.
    rewrite (nth_map_lt _ _ _ 0%nat) by (rewrite length_seq; exact Hi).
    rewrite seq_nth by exact Hi. cbn [Nat.add].
    rewrite (nth_map_lt _ _ _ 0).
    + reflexivity.
    + destruct (Hreply h1 i Hi) as [_ Hl]. rewrite Hl, <- Hlen. exact Hj.
Qed.

(** C8: with a key, a lookup that fails with a provider-side error
    (authentication or quota: [ApiError]; transport: [HTTPError], [Timeout],
    [ConnectionError]) makes [_drive_time_matrix] return [None] after its one
    request instead of raising; [_assign] then works on the fallback minutes;
    and when every lookup of a run fails so, [optimize] with drive times
    gives the very outcome of the run without them: it raises only if that
    run does. *)
Theorem provider_failure_recovered (orig dest centers : list point)
    (key : string) (k_vals : list Z) (rdc_list : option (list rdc))
    (transfer_rate_min : Q) (rdc_sqft_per_lb rdc_cost_per_sqft : option Q)
    (h : history) :
  String.eqb key EmptyString = false ->
  (forall e,
     distance_matrix h (mkRequest orig dest key) = Raise e ->
     provider_failure e = true ->
     _drive_time_matrix orig dest (Some key) h
       = (Ret None, h ++ [mkRequest orig dest key])) /\
  (forall e,
     let rq := mkRequest (map (fun s => (Longitude s, Latitude s)) df)
                 centers key in
     distance_matrix h rq = Raise e ->
     provider_failure e = true ->
     _dists df centers (Some key) h =
       (Ret (map (fun s =>
               map (fun c => fallback_minutes (Longitude s) (Latitude s)
                               (fst c) (snd c)) centers) df),
        h ++ [rq])) /\
  ((forall h0 rq, exists e,
      distance_matrix h0 rq = Raise e /\ provider_failure e = true) ->
   forall h0,
     fst (optimize df k_vals rate_out_min sqft_per_lb cost_sqft fixed_cost
            consider_inbound inbound_rate_min inbound_pts fixed_centers
            fixed_ints
            rdc_list transfer_rate_min rdc_sqft_per_lb rdc_cost_per_sqft
            true (Some key) h)
     = fst (optimize df k_vals rate_out_min sqft_per_lb cost_sqft fixed_cost
              consider_inbound inbound_rate_min inbound_pts fixed_centers
              fixed_ints
              rdc_list transfer_rate_min rdc_sqft_per_lb rdc_cost_per_sqft
              false (Some key) h0)).
Proof.
  intros Hk. split; [|split].
  - intros e Hfail He.
    apply (drive_time_matrix_failure _ _ _ _ e Hk Hfail).
    apply provider_failure_is_Exception. exact He.
  - intros e rq Hfail He. unfold _dists, bind.
    fold rq.
    rewrite (drive_time_matrix_failure _ _ _ _ e Hk Hfail).
    + reflexivity.
    + apply provider_failure_is_Exception. exact He.
  - intros Hall h0. unfold optimize.
    apply agree_optimize_loop.
    intros kv. apply agree_candidate. exact Hall.
Qed.

(** Without drive times, or with a missing key, a run of [optimize] sends
    no request, whether it returns or raises. *)
Theorem optimize_offline (k_vals : list Z) (rdc_list : option (list rdc))
    (transfer_rate_min : Q) (rdc_sqft_per_lb rdc_cost_per_sqft : option Q)
    (h : history) :
  use_drive_times = false \/ key_missing ors_api_key = true ->
  snd (run k_vals rdc_list transfer_rate_min rdc_sqft_per_lb
         rdc_cost_per_sqft h) = h.
Proof.
  intros Hoff.
  assert (K : key_missing the_key = true).
  { destruct Hoff as [->|K]; [reflexivity|].
    destruct use_drive_times; [exact K|reflexivity]. }
  unfold optimize. apply silent_optimize_loop.
  intros kv. apply silent_candidate. exact K.
Qed.

(** With drive times and a key, a candidate that returns has sent one
    batched request for the stores-to-centres matrix and then, when inbound
    is enabled, one request per supply point, in order; nothing else. *)
Theorem candidate_requests (key : string) (kv : Z) (h h' : history)
    (s : Solution) :
  use_drive_times = true ->
  ors_api_key = Some key ->
  String.eqb key EmptyString = false ->
  body kv h = (Ret s, h') ->
  h' = h
       ++ [mkRequest (map (fun r => (Longitude r, Latitude r)) df)
             (centers s) key]
       ++ (if consider_inbound
           then map (fun sp => mkRequest [(fst (fst sp), snd (fst sp))]
                                 (centers s) key) (or_empty inbound_pts)
           else []).
Proof.
  intros Hdt Hkey Hk Hs. rewrite Hdt, Hkey in Hs.
  destruct (candidate_inv _ _ _ _ _ _ _ _ _ _ _ _ _ _ _ Hs)
    as (cs0 & idx & tmin & h1 & _ & _ & Ha & Hin & _).
  assert (Hc : centers s <> []).
  { intros Hnil. unfold _assign, bind in Ha. rewrite Hnil in Ha.
    destruct (_dists df [] (Some key) h) as [[D|e] h2]; discriminate. }
  pose proof (assign_history df (centers s) key h Hk) as Hh1.
  rewrite Ha in Hh1. simpl in Hh1. subst h1.
  destruct consider_inbound.
  - rewrite transfer_multi_loop in Hin by exact Hc.
    apply transfer_loop_history in Hin; [|exact Hk].
    rewrite Hin, <- app_assoc. reflexivity.
  - unfold ret in Hin. injection Hin as _ <-.
    rewrite app_nil_r. reflexivity.
Qed.

Lemma candidate_demand_facts (kv : Z) (h h' : history) (s : Solution) :
  body kv h = (Ret s, h') ->
  centers s <> [] /\
  length (demand_per_wh s) = length (centers s) /\
  Qsum (demand_per_wh s) == Qsum (map DemandLbs df) /\
  map store (assigned s) = df /\
  (forall a, In a (assigned s) -> (Warehouse a < length (centers s))%nat).
Proof.
  intros Hs.
  destruct (candidate_inv _ _ _ _ _ _ _ _ _ _ _ _ _ _ _ Hs)
    as (cs0 & idx & tmin & h1 & _ & _ & Ha & _ & _ & Has & Hd & _).
  assert (Hc : centers s <> []).
  { intros Hnil. unfold _assign, bind in Ha. rewrite Hnil in Ha.
    destruct (_dists df [] the_key h) as [[D|e] h2]; discriminate. }
  split; [exact Hc|].
  split; [rewrite Hd, length_map, length_seq; reflexivity|].
  unfold _assign, bind in Ha.
  destruct (_dists df (centers s) the_key h) as [[D|e] h2] eqn:HD;
    [|discriminate].
  destruct (assign_rows_spec _ _ _ _ _ _ Hc HD)
    as (idx' & tmin' & Ha' & Hli & Hlt & Hrows).
  unfold _assign, bind in Ha'. rewrite HD in Ha'.
  rewrite Ha' in Ha. injection Ha as -> -> ->.
  destruct (zip_assigned_columns df idx tmin Hli Hlt) as (Hst & Hwh & _).
  assert (Hbound : forall a, In a (assigned s) ->
                             (Warehouse a < length (centers s))%nat).
  { intros a Hin. rewrite Has in Hin.
    apply In_nth_error in Hin as [i Hi].
    assert (Hilt : (i < length df)%nat).
    { rewrite <- Hst, length_map. apply nth_error_Some. congruence. }
    destruct (Hrows i Hilt) as (Hb & _).
    replace (Warehouse a) with (nth i idx 0%nat); [exact Hb|].
    rewrite <- Hwh. apply nth_map_some. exact Hi. }
  repeat split.
  - rewrite Hd, (demand_conserved _ _ Hbound).
    rewrite Has, <- (map_map store DemandLbs), Hst. reflexivity.
  - rewrite Has. exact Hst.
  - exact Hbound.
Qed.

(** In the Solution that [optimize] returns the total is the sum of the
    outbound, warehousing and inbound components, and the warehousing
    component depends on the assignment only through the number of centres:
    it is [len(centers) * fixed_cost + total_demand * sqft_per_lb *
    cost_sqft]. *)
Theorem cost_breakdown (k_vals : list Z) (rdc_list : option (list rdc))
    (transfer_rate_min : Q) (rdc_sqft_per_lb rdc_cost_per_sqft : option Q)
    (h h' : history) (s : Solution) :
  run k_vals rdc_list transfer_rate_min rdc_sqft_per_lb rdc_cost_per_sqft h
    = (Ret (Some s), h') ->
  total_cost s == out_cost s + wh_cost s + in_cost s /\
  wh_cost s ==
    inject_Z (Z.of_nat (length (centers s))) * fixed_cost
    + Qsum (map DemandLbs df) * sqft_per_lb * cost_sqft.
Proof.
  intros Hrun.
  apply (optimize_loop_invariant
           (fun s => total_cost s == out_cost s + wh_cost s + in_cost s /\
                     wh_cost s ==
                     inject_Z (Z.of_nat (length (centers s))) * fixed_cost
                     + Qsum (map DemandLbs df) * sqft_per_lb * cost_sqft)
           body k_vals None h h' (Some s)).
  - intros kv h0 s0 h1 _ Hs0.
    destruct (candidate_demand_facts _ _ _ _ Hs0) as (_ & Hlen & Hsum & _).
    destruct (candidate_inv _ _ _ _ _ _ _ _ _ _ _ _ _ _ _ Hs0)
      as (_ & _ & _ & _ & _ & _ & _ & _ & _ & _ & _ & _ & Hwh & Ht & Htot).
    split.
    + rewrite Htot, Ht. lra.
    + rewrite Hwh, wh_cost_fold, Hlen, Hsum. lra.
  - discriminate.
  - exact Hrun.
  - reflexivity.
Qed.

(** A candidate [k] that does not exceed the number of fixed centres is
    evaluated as that number: its Solution is the one of any other such [k]
    up to the [k] entry, and (when [KMeans] returns as many centroids as
    asked) its centre list is exactly the fixed centres. *)
Theorem k_below_fixed (kv1 kv2 : Z) (h : history) :
  (kv1 <= Z.of_nat (length fixed))%Z ->
  (kv2 <= Z.of_nat (length fixed))%Z ->
  body kv1 h = match body kv2 h with
               | (Ret s, h') => (Ret (with_k kv1 s), h')
               | (Raise e, h') => (Raise e, h')
               end /\
  ((forall n pts cs, KMeans_fit n pts = Ret cs -> Z.of_nat (length cs) = n) ->
   forall s h', body kv1 h = (Ret s, h') -> centers s = fixed).
Proof.
  intros H1 H2. split.
  - apply candidate_same_k_eff. lia.
  - intros Hkm s h' Hs.
    destruct (candidate_centers kv1 h h' s Hkm Hs) as [Hlen Hfix].
    rewrite <- Hfix. symmetry. apply firstn_all2. lia.
Qed.

(** [optimize] has no handler around the clustering: it returns only if
    [KMeans] succeeded for the effective [k] of every requested [k]. *)
Theorem clustering_must_succeed (k_vals : list Z)
    (rdc_list : option (list rdc)) (transfer_rate_min : Q)
    (rdc_sqft_per_lb rdc_cost_per_sqft : option Q) (h h' : history)
    (r : option Solution) :
  run k_vals rdc_list transfer_rate_min rdc_sqft_per_lb rdc_cost_per_sqft h
    = (Ret r, h') ->
  forall kv, In kv k_vals ->
    exists cs,
      KMeans_fit (Z.max kv (Z.of_nat (length fixed)))
        (map (fun r => (Longitude r, Latitude r)) df ++ fixed) = Ret cs.
Proof.
  intros Hrun kv Hin.
  destruct (optimize_loop_all_return body k_vals None h h' r Hrun kv Hin)
    as (h0 & s & h1 & Hs).
  destruct (candidate_inv _ _ _ _ _ _ _ _ _ _ _ _ _ _ _ Hs)
    as (cs0 & _ & _ & _ & Hfit & _).
  exists cs0. exact Hfit.
Qed.

(** [plot_network(r["assigned"], r["centers"])] on the Solution that
    [optimize] returns never indexes outside the centre list: there is one
    edge per store, from the store to the centre it is assigned to, in the
    palette colour of that centre's index with alpha 160. *)
Theorem plot_network_edges (k_vals : list Z) (rdc_list : option (list rdc))
    (transfer_rate_min : Q) (rdc_sqft_per_lb rdc_cost_per_sqft : option Q)
    (h h' : history) (s : Solution) :
  run k_vals rdc_list transfer_rate_min rdc_sqft_per_lb rdc_cost_per_sqft h
    = (Ret (Some s), h') ->
  exists es,
    plot_edges (assigned s) (centers s) = Ret es /\
    length es = length df /\
    Forall2 (fun r e =>
               edge_f e = (Longitude (store r), Latitude (store r)) /\
               nth_error (centers s) (Warehouse r) = Some (edge_t e) /\
               exists col,
                 _color (Z.of_nat (Warehouse r)) = Ret col /\
                 edge_color e = col ++ [160%Z])
            (assigned s) es.
Proof.
  intros Hrun.
  assert (Hfacts : map store (assigned s) = df /\
                   forall a, In a (assigned s) ->
                             (Warehouse a < length (centers s))%nat).
  { apply (optimize_loop_invariant
             (fun s => map store (assigned s) = df /\
                       forall a, In a (assigned s) ->
                                 (Warehouse a < length (centers s))%nat)
             body k_vals None h h' (Some s)).
    - intros kv h0 s0 h1 _ Hs0.
      destruct (candidate_demand_facts _ _ _ _ Hs0) as (_ & _ & _ & H1 & H2).
      split; assumption.
    - discriminate.
    - exact Hrun.
    - reflexivity. }
  destruct Hfacts as [Hst Hb].
  destruct (plot_edges_in_range (assigned s) (centers s) Hb)
    as (es & Hes & Hall).
  exists es. split; [exact Hes|]. split; [|exact Hall].
  rewrite <- (Forall2_length Hall), <- Hst, length_map. reflexivity.
Qed.

(** The app always asks for a non-empty range of [k]: for [lo <= hi],
    [optimize] on [range(lo, hi + 1)] never returns [None], and the [k] of
    the Solution it returns lies between [lo] and [hi]. *)
Theorem k_range_gives_solution (lo hi : Z) (rdc_list : option (list rdc))
    (transfer_rate_min : Q) (rdc_sqft_per_lb rdc_cost_per_sqft : option Q)
    (h h' : history) (r : option Solution) :
  (lo <= hi)%Z ->
  run (py_range lo (hi + 1)) rdc_list transfer_rate_min rdc_sqft_per_lb
    rdc_cost_per_sqft h = (Ret r, h') ->
  exists s, r = Some s /\ (lo <= k s <= hi)%Z.
Proof.
  intros Hle Hrun.
  assert (Hne : py_range lo (hi + 1) <> []).
  { unfold py_range. replace (Z.to_nat (hi + 1 - lo)) with (S (Z.to_nat (hi - lo)))
      by lia. discriminate. }
  destruct r as [s|].
  - exists s. split; [reflexivity|].
    apply (optimize_loop_invariant (fun s => (lo <= k s <= hi)%Z)
             body (py_range lo (hi + 1)) None h h' (Some s)).
    + intros kv h0 s0 h1 Hin Hs0.
      destruct (candidate_inv _ _ _ _ _ _ _ _ _ _ _ _ _ _ _ Hs0)
        as (_ & _ & _ & _ & _ & _ & _ & _ & Hk & _).
      rewrite Hk. unfold py_range in Hin.
      apply in_map_iff in Hin as (i & <- & Hi). apply in_seq in Hi. lia.
    + discriminate.
    + exact Hrun.
    + reflexivity.
  - exfalso.
    apply (optimize_loop_some body (py_range lo (hi + 1)) None h h' None).
    + left. exact Hne.
    + exact Hrun.
    + reflexivity.
Qed.

(** The cost summary the app shows for a result of [optimize] never has a
    Transfers metric: [show_transfer] is false, the summary has four columns
    with Outbound, Inbound, Warehousing when inbound is on and two columns
    with Outbound, Warehousing otherwise; and in general every metric is
    written to a column that exists. *)
Theorem summary_never_shows_transfers (k_vals : list Z)
    (rdc_list : option (list rdc)) (transfer_rate_min : Q)
    (rdc_sqft_per_lb rdc_cost_per_sqft : option Q) (h h' : history)
    (s : Solution) (has_rdc_only : bool) :
  run k_vals rdc_list transfer_rate_min rdc_sqft_per_lb rdc_cost_per_sqft h
    = (Ret (Some s), h') ->
  app_show_transfer has_rdc_only s = false /\
  summary_metrics consider_inbound (app_show_transfer has_rdc_only s) =
    (if consider_inbound
     then (4%nat, [(0%nat, Outbound); (1%nat, Inbound); (2%nat, Warehousing)])
     else (2%nat, [(0%nat, Outbound); (1%nat, Warehousing)])) /\
  (forall ci st,
     Forall (fun slot => (fst slot < fst (summary_metrics ci st))%nat)
            (snd (summary_metrics ci st))).
Proof.
  intros Hrun.
  assert (Hst : app_show_transfer has_rdc_only s = false).
  { unfold app_show_transfer.
    rewrite (optimize_trans_cost_zero _ _ _ _ _ _ _ _ Hrun).
    apply andb_false_r. }
  split; [exact Hst|]. split.
  - rewrite Hst. destruct consider_inbound; reflexivity.
  - intros [|] [|]; simpl; repeat constructor.
Qed.

End Run.

End Program.

(* ------------------------------------------------------------------ *)
(** ** Runs of the closed instance *)

Local Abbreviation demo_candidate service consider_inbound api_key :=
  (candidate stub_fn stub_fn stub_fn stub_fn stub_fn service first_points
     demo_df 0.02 0.02 6 250000 consider_inbound 0.01 demo_supply [] false
     api_key).

Local Abbreviation demo_optimize service k_vals fixed_centers rdc_list
    transfer_rate use_drive_times api_key :=
  (optimize stub_fn stub_fn stub_fn stub_fn stub_fn service first_points
     demo_df k_vals 0.02 0.02 6 250000 true 0.01 (Some demo_supply)
     fixed_centers false rdc_list transfer_rate None None use_drive_times
     api_key).

Lemma first_points_length (n : Z) (pts cs : list point) :
  first_points n pts = Ret cs -> Z.of_nat (length cs) = n.
Proof.
  unfold first_points.
  destruct ((0 <? n) && (n <=? Z.of_nat (length pts)))%Z eqn:E; [|discriminate].
  apply andb_true_iff in E as [H0 Hn].
  apply Z.ltb_lt in H0. apply Z.leb_le in Hn.
  intros [= <-]. rewrite length_firstn. lia.
Qed.

(** C1 (defect of the code): two redistribution-only centres, one supply
    point of share 1, a transfer rate of 0.015 and a routing service that
    answers 3600 seconds for every pair.  The Solution that [optimize]
    returns has transfer cost [0], whereas the formula of the claim, as
    [_inbound_cost_to_multiple_rdcs] computes it on the same data, is
    [60 * (200 / 2) * 1 * 0.015] for each of the two centres, 180 in all. *)
Theorem transfer_cost_is_not_computed :
  (exists s h',
     demo_optimize (flat_service 3600) [2%Z] None (Some demo_rdcs) 0.015
       true (Some "key"%string) [] = (Ret (Some s), h') /\
     trans_cost s = 0) /\
  (exists c h',
     _inbound_cost_to_multiple_rdcs stub_fn stub_fn stub_fn stub_fn stub_fn
       (flat_service 3600) (Qsum (map DemandLbs demo_df)) demo_supply 0.015
       (map coords demo_rdcs) (Some "key"%string) [] = (Ret c, h') /\
     c == 60 * (200 / 2) * 1 * 0.015 + 60 * (200 / 2) * 1 * 0.015 /\
     0 < c).
Proof.
  split.
  - destruct (demo_optimize (flat_service 3600) [2%Z] None (Some demo_rdcs)
                0.015 true (Some "key"%string) []) as [[[s|]|e] h'] eqn:E.
    + exists s, h'. split; [reflexivity|].
      eapply optimize_trans_cost_zero. exact E.
    + vm_compute in E. discriminate.
    + vm_compute in E. discriminate.
  - destruct (_inbound_cost_to_multiple_rdcs stub_fn stub_fn stub_fn stub_fn
                stub_fn (flat_service 3600) (Qsum (map DemandLbs demo_df))
                demo_supply 0.015 (map coords demo_rdcs)
                (Some "key"%string) []) as [[c|e] h'] eqn:E.
    + exists c, h'. split; [reflexivity|].
      vm_compute in E. injection E as <- _. split; reflexivity.
    + vm_compute in E. discriminate.
Qed.

(** A run of [assign_nearest_center]: three centres, no key. *)
Lemma assign_nearest_center_witness :
  [(0, 0); (1, 1); (0, 0)] <> ([] : list point) /\
  exists idx tmin,
    _assign stub_fn stub_fn stub_fn stub_fn stub_fn (flat_service 3600)
      demo_df [(0, 0); (1, 1); (0, 0)] None [] = (Ret (idx, tmin), []) /\
    nearest_assignment
      (fun i j =>
         fallback_minutes stub_fn stub_fn stub_fn stub_fn stub_fn
           (Longitude (nth i demo_df (mkRow 0 0 0)))
           (Latitude (nth i demo_df (mkRow 0 0 0)))
           (fst (nth j [(0, 0); (1, 1); (0, 0)] (0, 0)))
           (snd (nth j [(0, 0); (1, 1); (0, 0)] (0, 0))))
      (length demo_df) 3 idx tmin.
Proof.
  assert (Hc : [(0, 0); (1, 1); (0, 0)] <> ([] : list point)) by discriminate.
  split; [exact Hc|].
  destruct (assign_nearest_center stub_fn stub_fn stub_fn stub_fn stub_fn
              (flat_service 3600) demo_df [(0, 0); (1, 1); (0, 0)] None [] Hc)
    as [Hoff _].
  exact (Hoff eq_refl).
Defined.

(** A run of [fallback_without_credential]: the empty string as key. *)
Lemma fallback_without_credential_witness :
  key_missing (Some ""%string) = true /\
  _drive_time_matrix (flat_service 3600) [(0, 0)] [(1, 1)] (Some ""%string) []
    = (Ret None, []).
Proof.
  split; [reflexivity|].
  exact (proj1 (fallback_without_credential stub_fn stub_fn stub_fn stub_fn
                  stub_fn (flat_service 3600) [(0, 0)] [(1, 1)] demo_df
                  [(0, 0)] (Some ""%string) [] eq_refl)).
Defined.

(** A run of [fixed_centers_kept]: one fixed centre, candidates 1, 2, 3. *)
Lemma fixed_centers_kept_witness :
  (forall n pts cs, first_points n pts = Ret cs -> Z.of_nat (length cs) = n) /\
  exists s h',
    demo_optimize (flat_service 3600) [1%Z; 2%Z; 3%Z] (Some [(5, 5)]) None
      0.015 true (Some "key"%string) [] = (Ret (Some s), h') /\
    firstn 1 (centers s) = [(5, 5)].
Proof.
  split; [exact first_points_length|].
  destruct (demo_optimize (flat_service 3600) [1%Z; 2%Z; 3%Z] (Some [(5, 5)])
              None 0.015 true (Some "key"%string) []) as [[[s|]|e] h'] eqn:E.
  - exists s, h'. split; [reflexivity|].
    destruct (fixed_centers_kept stub_fn stub_fn stub_fn stub_fn stub_fn
                (flat_service 3600) first_points demo_df 0.02 0.02 6 250000
                true 0.01 (Some demo_supply) (Some [(5, 5)]) false true
                (Some "key"%string) [1%Z; 2%Z; 3%Z] None 0.015 None None []
                first_points_length) as (_ & _ & Hrun).
    exact (proj2 (Hrun s h' E)).
  - vm_compute in E. discriminate.
  - vm_compute in E. discriminate.
Defined.

(** A run of [optimize_returns_first_minimum]: candidates 1, 2, 3. *)
Lemma optimize_returns_first_minimum_witness :
  [1%Z; 2%Z; 3%Z] <> [] /\
  exists sols b h',
    eval_all (demo_candidate (flat_service 3600) true (Some "key"%string))
      [1%Z; 2%Z; 3%Z] [] = (Ret sols, h') /\
    demo_optimize (flat_service 3600) [1%Z; 2%Z; 3%Z] None None 0.015 true
      (Some "key"%string) [] = (Ret (Some b), h') /\
    forall s, In s sols -> total_cost b <= total_cost s.
Proof.
  assert (Hne : [1%Z; 2%Z; 3%Z] <> []) by discriminate.
  split; [exact Hne|].
  destruct (optimize_returns_first_minimum stub_fn stub_fn stub_fn stub_fn
              stub_fn (flat_service 3600) first_points demo_df 0.02 0.02 6
              250000 true 0.01 (Some demo_supply) None false true
              (Some "key"%string) [1%Z; 2%Z; 3%Z] None 0.015 None None [] Hne)
    as (_ & _ & H).
  simpl or_empty in H.
  destruct (eval_all (demo_candidate (flat_service 3600) true
                        (Some "key"%string)) [1%Z; 2%Z; 3%Z] [])
    as [[sols|e] h'] eqn:E.
  - destruct H as (_ & i & b & _ & Hrun & Hle & _).
    exists sols, b, h'. repeat split; assumption.
  - vm_compute in E. discriminate.
Defined.

(** A run of [demand_is_conserved]: the candidate for [k = 2], with the
    weights as integers. *)
Lemma demand_is_conserved_witness :
  exists s h',
    demo_candidate (flat_service 3600) true (Some "key"%string) 2%Z []
      = (Ret s, h') /\
    sum_in_order Z.add 0%Z
      (demand_totals Z.add 0%Z (map Warehouse (assigned s))
         [100; 50; 30; 20]%Z (length (centers s)))
    = sum_in_order Z.add 0%Z [100; 50; 30; 20]%Z.
Proof.
  destruct (demo_candidate (flat_service 3600) true (Some "key"%string) 2%Z [])
    as [[s|e] h'] eqn:E.
  - exists s, h'. split; [reflexivity|].
    destruct (demand_is_conserved stub_fn stub_fn stub_fn stub_fn stub_fn
                (flat_service 3600) first_points demo_df 0.02 0.02 6 250000
                true 0.01 (Some demo_supply) None false true
                (Some "key"%string) 2%Z [] h' s E)
      as (_ & _ & _ & _ & _ & Hexact).
    apply Hexact.
    + reflexivity.
    + intros x y z. apply Z.add_assoc.
    + intros x y. apply Z.add_comm.
    + intros x. apply Z.add_0_l.
  - vm_compute in E. discriminate.
Defined.

(** C6 (counterexample): with float64 weights the conservation is not exact.
    The table has three stores weighing 0.1, 0.2 and 0.3 as float64; with the
    two fixed centres, [optimize] assigns the first store to centre 0 and the
    other two to centre 1.  On the rationals these floats stand for, the
    per-centre totals add up to the table total.  Added in float64, the
    per-centre totals are 0.1 and 0.5, their sum is 0.6, and the table total
    0.1 + 0.2 + 0.3 is 0.6000000000000001. *)
Lemma float64_totals_differ :
  map float_value float_weights = map (fun r => Some (DemandLbs r)) float_df /\
  exists s,
    optimize stub_fn stub_fn stub_fn stub_fn stub_fn (flat_service 3600)
      first_points float_df [2%Z] 0.02 0.02 6 250000 false 0 None
      (Some [(0, 0); (0, 10)]) false None 0 None None false None []
      = (Ret (Some s), []) /\
    map Warehouse (assigned s) = [0; 1; 1]%nat /\
    length (centers s) = 2%nat /\
    Qsum (demand_per_wh s) == Qsum (map DemandLbs float_df) /\
    let totals :=
      demand_totals PrimFloat.add 0%float (map Warehouse (assigned s))
        float_weights (length (centers s)) in
    totals = [0x1.999999999999ap-4; 0x1p-1]%float /\
    sum_in_order PrimFloat.add 0%float totals = 0x1.3333333333333p-1%float /\
    sum_in_order PrimFloat.add 0%float float_weights
      = 0x1.3333333333334p-1%float /\
    PrimFloat.eqb (sum_in_order PrimFloat.add 0%float totals)
      (sum_in_order PrimFloat.add 0%float float_weights) = false.
Proof.
  split; [vm_compute; reflexivity|].
  destruct (optimize stub_fn stub_fn stub_fn stub_fn stub_fn
              (flat_service 3600) first_points float_df [2%Z] 0.02 0.02 6
              250000 false 0 None (Some [(0, 0); (0, 10)]) false None 0 None
              None false None [])
    as [[[s|]|e] h'] eqn:E; vm_compute in E; try discriminate.
  injection E as Es Eh. exists s. subst s h'. split; [reflexivity|].
  cbv zeta. repeat split; vm_compute; reflexivity.
Qed.

(** Two runs of [inbound_cost_truncates_supply]: the one fixed centre
    [(0, 0)] given with integer coordinates, a supply point at [(0, 1/2)].
    Without a key the inbound component is 0, the cost of a supply point at
    the centre; the double sum of the claim, with the time from [(0, 1/2)],
    is not 0.  With a key and a service answering 3600 seconds, the component
    is the double sum on 60 minutes. *)
Lemma inbound_cost_truncates_supply_witness :
  (exists s,
     candidate stub_fn stub_fn stub_fn stub_fn stub_fn (flat_service 3600)
       first_points demo_df 0.02 0.02 6 250000 true 0.01 half_degree_supply
       [(0, 0)] true None 1%Z [] = (Ret s, []) /\
     centers s = [(0, 0)] /\
     in_cost s ==
     inbound_formula
       (fun i j =>
          let sp := nth i half_degree_supply (0, 0, 0) in
          let c := nth j (centers s) (0, 0) in
          fallback_minutes stub_fn stub_fn stub_fn stub_fn stub_fn
            (int_cast (fst (fst sp))) (int_cast (snd (fst sp)))
            (fst c) (snd c))
       half_degree_supply (demand_per_wh s) 0.01 /\
     in_cost s == 0 /\
     inbound_formula
       (fun i j =>
          let sp := nth i half_degree_supply (0, 0, 0) in
          let c := nth j (centers s) (0, 0) in
          fallback_minutes stub_fn stub_fn stub_fn stub_fn stub_fn
            (fst (fst sp)) (snd (fst sp)) (fst c) (snd c))
       half_degree_supply (demand_per_wh s) 0.01 == 29691 # 25) /\
  (exists s h',
     candidate stub_fn stub_fn stub_fn stub_fn stub_fn (flat_service 3600)
       first_points demo_df 0.02 0.02 6 250000 true 0.01 half_degree_supply
       [(0, 0)] true (Some "key"%string) 1%Z [] = (Ret s, h') /\
     in_cost s ==
     inbound_formula (fun i j => nth j [3600] 0 / 60) half_degree_supply
       (demand_per_wh s) 0.01 /\
     in_cost s == 120).
Proof.
  split.
  - destruct (candidate stub_fn stub_fn stub_fn stub_fn stub_fn
                (flat_service 3600) first_points demo_df 0.02 0.02 6 250000
                true 0.01 half_degree_supply [(0, 0)] true None 1%Z [])
      as [[s|e] h'] eqn:E.
    + pose proof E as E2. vm_compute in E2. injection E2 as Es Eh. subst h'.
      assert (Hc : centers s = [(0, 0)]) by (rewrite <- Es; reflexivity).
      destruct (inbound_cost_truncates_supply stub_fn stub_fn stub_fn stub_fn
                  stub_fn (flat_service 3600) first_points demo_df 0.02 0.02
                  6 250000 true 0.01 (Some half_degree_supply)
                  (Some [(0, 0)]) true false None 1%Z [] [] s E)
        as (_ & _ & Hint & _).
      exists s. split; [reflexivity|]. split; [exact Hc|].
      split; [apply Hint; try reflexivity; rewrite Hc; reflexivity|].
      clear Hint E Hc. subst s. split; vm_compute; reflexivity.
    + vm_compute in E. discriminate.
  - destruct (candidate stub_fn stub_fn stub_fn stub_fn stub_fn
                (flat_service 3600) first_points demo_df 0.02 0.02 6 250000
                true 0.01 half_degree_supply [(0, 0)] true
                (Some "key"%string) 1%Z [])
      as [[s|e] h'] eqn:E.
    + pose proof E as E2. vm_compute in E2. injection E2 as Es Eh.
      assert (Hc : centers s = [(0, 0)]) by (rewrite <- Es; reflexivity).
      destruct (inbound_cost_truncates_supply stub_fn stub_fn stub_fn stub_fn
                  stub_fn (flat_service 3600) first_points demo_df 0.02 0.02
                  6 250000 true 0.01 (Some half_degree_supply)
                  (Some [(0, 0)]) true true (Some "key"%string) 1%Z [] h' s E)
        as (_ & _ & _ & Hrouted).
      assert (Hcost : in_cost s ==
                      inbound_formula (fun i j => nth j [3600] 0 / 60)
                        half_degree_supply (demand_per_wh s) 0.01).
      { apply (Hrouted "key"%string (fun _ => [3600]));
          try reflexivity.
        intros hh i Hi. rewrite Hc. simpl in Hi.
        destruct i as [|i]; [|lia]. split; reflexivity. }
      exists s, h'. split; [reflexivity|]. split; [exact Hcost|].
      clear Hrouted Hcost E Hc Eh. subst s. vm_compute. reflexivity.
    + vm_compute in E. discriminate.
Defined.

(** A run of [provider_failure_recovered]: the service is down. *)
Lemma provider_failure_recovered_witness :
  String.eqb "key" "" = false /\
  _drive_time_matrix down_service [(0, 0)] [(1, 1)] (Some "key"%string) []
    = (Ret None, [mkRequest [(0, 0)] [(1, 1)] "key"]) /\
  fst (demo_optimize down_service [1%Z; 2%Z] None None 0.015 true
         (Some "key"%string) [])
  = fst (demo_optimize down_service [1%Z; 2%Z] None None 0.015 false
           (Some "key"%string) []).
Proof.
  split; [reflexivity|].
  destruct (provider_failure_recovered stub_fn stub_fn stub_fn stub_fn stub_fn
              down_service first_points demo_df 0.02 0.02 6 250000 true 0.01
              (Some demo_supply) None false [(0, 0)] [(1, 1)] [(0, 0)]
              "key"%string [1%Z; 2%Z] None 0.015 None None [] eq_refl)
    as (Hone & _ & Hrun).
  split.
  - apply (Hone Timeout); reflexivity.
  - apply Hrun. intros h0 rq. exists Timeout. split; reflexivity.
Defined.

(* ------------------------------------------------------------------ *)
(** ** Presentation and input collection *)

(** [_color] is defined on every integer, negative ones included: it gives
    an RGB triple of the palette, the [i]-th for [0 <= i < 10], and repeats
    with period 10. *)
Theorem color_cycles (i : Z) :
  exists c,
    _color i = Ret c /\
    length c = 3%nat /\
    Forall (fun x => (0 <= x <= 255)%Z) c /\
    _color (i + 10) = Ret c /\
    ((0 <= i < 10)%Z -> nth_error _PAL (Z.to_nat i) = Some c).
Proof.
  assert (Hper : _color (i + 10) = _color i).
  { unfold _color. f_equal.
    change (Z.of_nat (length _PAL)) with 10%Z.
    replace (i + 10)%Z with (i + 1 * 10)%Z by lia.
    apply Z_mod_plus_full. }
  rewrite Hper. unfold _color.
  change (Z.of_nat (length _PAL)) with 10%Z.
  assert (Hm : (0 <= i mod 10 < 10)%Z) by (apply Z.mod_pos_bound; lia).
  assert (Hsmall : (0 <= i < 10)%Z -> (i mod 10 = i)%Z).
  { intros Hi. apply Z.mod_small. exact Hi. }
  set (j := (i mod 10)%Z) in *.
  assert (Hj : (j = 0 \/ j = 1 \/ j = 2 \/ j = 3 \/ j = 4 \/ j = 5 \/ j = 6
                \/ j = 7 \/ j = 8 \/ j = 9)%Z) by lia.
  destruct Hj as [E|[E|[E|[E|[E|[E|[E|[E|[E|E]]]]]]]]]; rewrite E in *;
    eexists; (split; [reflexivity|]); (split; [reflexivity|]);
    (split; [repeat constructor; lia|]); (split; [reflexivity|]);
    intros Hi; rewrite <- (Hsmall Hi); reflexivity.
Qed.

Lemma bucket_cases (x : Q) :
  (x < 0 /\ bucket x = None) \/
  (0 <= x /\ x < 100 /\ bucket x = Some 0%nat) \/
  (100 <= x /\ x < 250 /\ bucket x = Some 1%nat) \/
  (250 <= x /\ x < 500 /\ bucket x = Some 2%nat) \/
  (500 <= x /\ x < 1000 /\ bucket x = Some 3%nat) \/
  (1000 <= x /\ bucket x = Some 4%nat).
Proof.
  unfold bucket.
  destruct (Qltb x 0) eqn:E0;
    [apply Qltb_lt in E0; left; split; [exact E0|reflexivity]|].
  apply Qltb_ge in E0. right.
  destruct (Qltb x 100) eqn:E1;
    [apply Qltb_lt in E1; left; repeat split; assumption|].
  apply Qltb_ge in E1. right.
  destruct (Qltb x 250) eqn:E2;
    [apply Qltb_lt in E2; left; repeat split; assumption|].
  apply Qltb_ge in E2. right.
  destruct (Qltb x 500) eqn:E3;
    [apply Qltb_lt in E3; left; repeat split; assumption|].
  apply Qltb_ge in E3. right.
  destruct (Qltb x 1000) eqn:E4;
    [apply Qltb_lt in E4; left; repeat split; assumption|].
  apply Qltb_ge in E4. right. split; [exact E4|reflexivity].
Qed.

(** The distance distribution has one count per label; every distance is
    counted in the bucket whose left-closed interval holds it, a negative
    one in none, so the five counts add up to the number of non-negative
    distances. *)
Theorem dist_summary_partition (dist : list Q) :
  length (dist_summary dist) = 5%nat /\
  list_sum (dist_summary dist)
    = length (filter (fun x => negb (Qltb x 0)) dist) /\
  (forall x b, in_bucket b x = true <->
     (b = 0%nat /\ 0 <= x /\ x < 100) \/
     (b = 1%nat /\ 100 <= x /\ x < 250) \/
     (b = 2%nat /\ 250 <= x /\ x < 500) \/
     (b = 3%nat /\ 500 <= x /\ x < 1000) \/
     (b = 4%nat /\ 1000 <= x)).
Proof.
  split; [reflexivity|]. split.
  - unfold dist_summary. simpl.
    induction dist as [|x dist IH]; [reflexivity|].
    cbn [filter].
    assert (Ei : forall b, in_bucket b x
                 = match bucket x with
                   | Some b' => Nat.eqb b' b
                   | None => false
                   end) by reflexivity.
    rewrite !Ei. clear Ei.
    destruct (bucket_cases x)
      as [(H & Hb)|[(H0 & H & Hb)|[(H0 & H & Hb)|[(H0 & H & Hb)
         |[(H0 & H & Hb)|(H0 & Hb)]]]]]; rewrite Hb.
    + apply Qltb_lt in H. rewrite H. simpl. exact IH.
    + apply Qltb_ge in H0. rewrite H0. simpl. simpl in IH. lia.
    + assert (H00 : 0 <= x) by lra.
      apply Qltb_ge in H00. rewrite H00. simpl. simpl in IH. lia.
    + assert (H00 : 0 <= x) by lra.
      apply Qltb_ge in H00. rewrite H00. simpl. simpl in IH. lia.
    + assert (H00 : 0 <= x) by lra.
      apply Qltb_ge in H00. rewrite H00. simpl. simpl in IH. lia.
    + assert (H00 : 0 <= x) by lra.
      apply Qltb_ge in H00. rewrite H00. simpl. simpl in IH. lia.
  - intros x b. unfold in_bucket.
    destruct (bucket_cases x)
      as [(H & ->)|[(H0 & H & ->)|[(H0 & H & ->)|[(H0 & H & ->)
         |[(H0 & H & ->)|(H0 & ->)]]]]].
    + split; [discriminate|].
      intros [(_ & ? & _)|[(_ & ? & _)|[(_ & ? & _)|[(_ & ? & _)|(_ & ?)]]]];
        lra.
    + rewrite Nat.eqb_eq. split.
      * intros <-. left. auto.
      * intros [(? & _)|[(_ & ? & _)|[(_ & ? & _)|[(_ & ? & _)|(_ & ?)]]]];
          try lra. congruence.
    + rewrite Nat.eqb_eq. split.
      * intros <-. right. left. auto.
      * intros [(_ & _ & ?)|[(? & _)|[(_ & ? & _)|[(_ & ? & _)|(_ & ?)]]]];
          try lra. congruence.
    + rewrite Nat.eqb_eq. split.
      * intros <-. right. right. left. auto.
      * intros [(_ & _ & ?)|[(_ & _ & ?)|[(? & _)|[(_ & ? & _)|(_ & ?)]]]];
          try lra. congruence.
    + rewrite Nat.eqb_eq. split.
      * intros <-. right. right. right. left. auto.
      * intros [(_ & _ & ?)|[(_ & _ & ?)|[(_ & _ & ?)|[(? & _)|(_ & ?)]]]];
          try lra. congruence.
    + rewrite Nat.eqb_eq. split.
      * intros <-. right. right. right. right. auto.
      * intros [(_ & _ & ?)|[(_ & _ & ?)|[(_ & _ & ?)|[(_ & _ & ?)|(? & _)]]]];
          try lra. congruence.
Qed.

Lemma app_inbound_pts_shares (sup : list (Q * Q * Q * bool)) :
  Forall (fun e => snd (fst e) <= 100) sup ->
  Forall (fun sp => 0 < snd sp /\ snd sp <= 1) (app_inbound_pts sup).
Proof.
  intros Hb. unfold app_inbound_pts. apply Forall_forall.
  intros sp Hsp. apply in_map_iff in Hsp as ([[[lon lat] pct] use] & <- & Hin).
  apply filter_In in Hin as [Hin Hkeep].
  apply andb_true_iff in Hkeep as [_ Hpos]. apply Qltb_lt in Hpos.
  rewrite Forall_forall in Hb. specialize (Hb _ Hin). simpl in *.
  split.
  - apply Qlt_shift_div_l; lra.
  - apply Qle_shift_div_r; lra.
Qed.

(** The "Run solver" button calls [optimize] only with an uploaded table;
    with inbound on, it passes at least one supply point, each ticked in the
    form with a share in (0, 1] (percentages being at most 100), and the
    inbound rate of the form; with inbound off, it passes no supply point
    and rate 0. *)
Theorem run_solver_guard (has_upload inbound_on : bool) (in_rate : Q)
    (sup : list (Q * Q * Q * bool)) (ci : bool) (rate : Q)
    (pts : list supply) :
  Forall (fun e => snd (fst e) <= 100) sup ->
  run_solver has_upload inbound_on in_rate sup = CallOptimize ci rate pts ->
  has_upload = true /\ ci = inbound_on /\
  (ci = true ->
   pts <> [] /\ rate = in_rate /\
   Forall (fun sp => 0 < snd sp /\ snd sp <= 1) pts /\
   forall sp, In sp pts ->
     exists pct, In (fst (fst sp), snd (fst sp), pct, true) sup /\
                 snd sp = pct / 100) /\
  (ci = false -> pts = [] /\ rate = 0).
Proof.
  intros Hb. unfold run_solver.
  destruct has_upload; [|discriminate]. simpl.
  destruct inbound_on; simpl.
  - destruct (app_inbound_pts sup) as [|sp0 rest] eqn:E; [discriminate|].
    intros [= <- <- <-]. split; [reflexivity|]. split; [reflexivity|].
    split; [|discriminate]. intros _.
    split; [discriminate|]. split; [reflexivity|].
    split; [rewrite <- E; apply app_inbound_pts_shares; exact Hb|].
    intros sp Hsp. rewrite <- E in Hsp. unfold app_inbound_pts in Hsp.
    apply in_map_iff in Hsp as ([[[lon lat] pct] use] & <- & Hin).
    apply filter_In in Hin as [Hin Hkeep].
    apply andb_true_iff in Hkeep as [Huse _]. subst use.
    exists pct. split; [exact Hin|reflexivity].
  - intros [= <- <- <-]. split; [reflexivity|]. split; [reflexivity|].
    split; [discriminate|]. intros _. split; reflexivity.
Qed.

(* ------------------------------------------------------------------ *)
(** ** Further runs of the closed instance *)

(** A run of [optimize_offline]: drive times switched off. *)
Lemma optimize_offline_witness :
  (false = false \/ key_missing (Some "key"%string) = true) /\
  snd (demo_optimize (flat_service 3600) [1%Z; 2%Z] None None 0.015 false
         (Some "key"%string) []) = [].
Proof.
  assert (H : false = false \/ key_missing (Some "key"%string) = true)
    by (left; reflexivity).
  split; [exact H|].
  exact (optimize_offline stub_fn stub_fn stub_fn stub_fn stub_fn
           (flat_service 3600) first_points demo_df 0.02 0.02 6 250000 true
           0.01 (Some demo_supply) None false false (Some "key"%string)
           [1%Z; 2%Z] None 0.015 None None [] H).
Defined.

(** A run of [candidate_requests]: [k = 2], one supply point. *)
Lemma candidate_requests_witness :
  String.eqb "key" "" = false /\
  exists s h',
    demo_candidate (flat_service 3600) true (Some "key"%string) 2%Z []
      = (Ret s, h') /\
    h' = [mkRequest (map (fun r => (Longitude r, Latitude r)) demo_df)
            (centers s) "key";
          mkRequest [(2, 2)] (centers s) "key"].
Proof.
  split; [reflexivity|].
  destruct (demo_candidate (flat_service 3600) true (Some "key"%string) 2%Z [])
    as [[s|e] h'] eqn:E.
  - exists s, h'. split; [reflexivity|].
    exact (candidate_requests stub_fn stub_fn stub_fn stub_fn stub_fn
             (flat_service 3600) first_points demo_df 0.02 0.02 6 250000
             true 0.01 (Some demo_supply) None false true (Some "key"%string)
             "key"%string 2%Z [] h' s eq_refl eq_refl eq_refl E).
  - vm_compute in E. discriminate.
Defined.

(** A run of [cost_breakdown]: candidates 1, 2, 3. *)
Lemma cost_breakdown_witness :
  exists s h',
    demo_optimize (flat_service 3600) [1%Z; 2%Z; 3%Z] None None 0.015 true
      (Some "key"%string) [] = (Ret (Some s), h') /\
    wh_cost s ==
      inject_Z (Z.of_nat (length (centers s))) * 250000
      + Qsum (map DemandLbs demo_df) * 0.02 * 6.
Proof.
  destruct (demo_optimize (flat_service 3600) [1%Z; 2%Z; 3%Z] None None 0.015
              true (Some "key"%string) []) as [[[s|]|e] h'] eqn:E.
  - exists s, h'. split; [reflexivity|].
    exact (proj2 (cost_breakdown stub_fn stub_fn stub_fn stub_fn stub_fn
                    (flat_service 3600) first_points demo_df 0.02 0.02 6
                    250000 true 0.01 (Some demo_supply) None false true
                    (Some "key"%string) [1%Z; 2%Z; 3%Z] None 0.015 None None
                    [] h' s E)).
  - vm_compute in E. discriminate.
  - vm_compute in E. discriminate.
Defined.

(** A run of [k_below_fixed]: two fixed centres, [k = 1] against [k = 2]. *)
Lemma k_below_fixed_witness :
  (1 <= Z.of_nat (length [(5, 5); (6, 6)]))%Z /\
  (2 <= Z.of_nat (length [(5, 5); (6, 6)]))%Z /\
  exists s h',
    candidate stub_fn stub_fn stub_fn stub_fn stub_fn (flat_service 3600)
      first_points demo_df 0.02 0.02 6 250000 true 0.01 demo_supply
      [(5, 5); (6, 6)] false None 2%Z [] = (Ret s, h') /\
    candidate stub_fn stub_fn stub_fn stub_fn stub_fn (flat_service 3600)
      first_points demo_df 0.02 0.02 6 250000 true 0.01 demo_supply
      [(5, 5); (6, 6)] false None 1%Z [] = (Ret (with_k 1 s), h') /\
    centers s = [(5, 5); (6, 6)].
Proof.
  assert (H1 : (1 <= Z.of_nat (length [(5, 5); (6, 6)]))%Z) by (simpl; lia).
  assert (H2 : (2 <= Z.of_nat (length [(5, 5); (6, 6)]))%Z) by (simpl; lia).
  split; [exact H1|]. split; [exact H2|].
  destruct (k_below_fixed stub_fn stub_fn stub_fn stub_fn stub_fn
              (flat_service 3600) first_points demo_df 0.02 0.02 6 250000
              true 0.01 (Some demo_supply) (Some [(5, 5); (6, 6)]) false false
              None 1%Z 2%Z [] H1 H2) as [Hsame _].
  destruct (k_below_fixed stub_fn stub_fn stub_fn stub_fn stub_fn
              (flat_service 3600) first_points demo_df 0.02 0.02 6 250000
              true 0.01 (Some demo_supply) (Some [(5, 5); (6, 6)]) false false
              None 2%Z 1%Z [] H2 H1) as [_ Hfix].
  simpl or_empty in Hsame, Hfix.
  destruct (candidate stub_fn stub_fn stub_fn stub_fn stub_fn
              (flat_service 3600) first_points demo_df 0.02 0.02 6 250000
              true 0.01 demo_supply [(5, 5); (6, 6)] false None 2%Z [])
    as [[s|e] h'] eqn:E.
  - exists s, h'. split; [reflexivity|]. split; [exact Hsame|].
    apply (Hfix first_points_length s h'). reflexivity.
  - vm_compute in E. discriminate.
Defined.

(** A run of [clustering_must_succeed]: candidates 1 and 2. *)
Lemma clustering_must_succeed_witness :
  exists r h',
    demo_optimize (flat_service 3600) [1%Z; 2%Z] None None 0.015 true
      (Some "key"%string) [] = (Ret r, h') /\
    exists cs,
      first_points (Z.max 2 0)
        (map (fun r => (Longitude r, Latitude r)) demo_df ++ []) = Ret cs.
Proof.
  destruct (demo_optimize (flat_service 3600) [1%Z; 2%Z] None None 0.015 true
              (Some "key"%string) []) as [[r|e] h'] eqn:E.
  - exists r, h'. split; [reflexivity|].
    apply (clustering_must_succeed stub_fn stub_fn stub_fn stub_fn stub_fn
             (flat_service 3600) first_points demo_df 0.02 0.02 6 250000
             true 0.01 (Some demo_supply) None false true (Some "key"%string)
             [1%Z; 2%Z] None 0.015 None None [] h' r E 2%Z).
    right. left. reflexivity.
  - vm_compute in E. discriminate.
Defined.

(** A run of [routed_minutes]: every pair takes 3600 seconds. *)
Lemma routed_minutes_witness :
  String.eqb "key" "" = false /\
  demo_df <> [] /\
  _dists stub_fn stub_fn stub_fn stub_fn stub_fn (flat_service 3600) demo_df
    [(0, 0); (1, 1)] (Some "key"%string) [] =
    (Ret (map (map (fun s => s / 60))
            [[3600; 3600]; [3600; 3600]; [3600; 3600]; [3600; 3600]]),
     [] ++ [mkRequest (map (fun s => (Longitude s, Latitude s)) demo_df)
              [(0, 0); (1, 1)] "key"]).
Proof.
  split; [reflexivity|]. split; [discriminate|].
  apply (routed_minutes stub_fn stub_fn stub_fn stub_fn stub_fn
           (flat_service 3600) demo_df [(0, 0); (1, 1)] "key"%string []
           [[3600; 3600]; [3600; 3600]; [3600; 3600]; [3600; 3600]]).
  - reflexivity.
  - discriminate.
  - reflexivity.
  - reflexivity.
  - repeat constructor.
Defined.

(** A run of [unusable_reply_falls_back]: one duration is null. *)
Lemma unusable_reply_falls_back_witness :
  String.eqb "key" "" = false /\
  _dists stub_fn stub_fn stub_fn stub_fn stub_fn
    (canned_service [[Some 60; None]]) [mkRow 0 0 1] [(0, 0); (1, 1)]
    (Some "key"%string) [] =
    (Ret (map (fun s =>
            map (fun c =>
                   fallback_minutes stub_fn stub_fn stub_fn stub_fn stub_fn
                     (Longitude s) (Latitude s) (fst c) (snd c))
                [(0, 0); (1, 1)]) [mkRow 0 0 1]),
     [] ++ [mkRequest [(0, 0)] [(0, 0); (1, 1)] "key"]).
Proof.
  split; [reflexivity|].
  apply (unusable_reply_falls_back stub_fn stub_fn stub_fn stub_fn stub_fn
           (canned_service [[Some 60; None]]) [mkRow 0 0 1] [(0, 0); (1, 1)]
           "key"%string [] [[Some 60; None]]).
  - reflexivity.
  - reflexivity.
  - right. exists [Some 60; None]. split; simpl; auto.
Defined.

(** A run of [misshapen_reply_raises]: three columns for two centres. *)
Lemma misshapen_reply_raises_witness :
  String.eqb "key" "" = false /\
  regular [[1; 2; 3]] = true /\
  _assign stub_fn stub_fn stub_fn stub_fn stub_fn
    (canned_service [[Some 1; Some 2; Some 3]]) demo_df [(0, 0); (1, 1)]
    (Some "key"%string) [] =
    (Raise ValueError,
     [] ++ [mkRequest (map (fun s => (Longitude s, Latitude s)) demo_df)
              [(0, 0); (1, 1)] "key"]).
Proof.
  split; [reflexivity|]. split; [reflexivity|].
  apply (misshapen_reply_raises stub_fn stub_fn stub_fn stub_fn stub_fn
           (canned_service [[Some 1; Some 2; Some 3]]) demo_df
           [(0, 0); (1, 1)] "key"%string [] [[1; 2; 3]]).
  - reflexivity.
  - reflexivity.
  - reflexivity.
  - right. right. split; simpl; lia.
Defined.

(** A run of [drive_time_single_cases]: a 1 x 1 reply of 3600 seconds. *)
Lemma drive_time_single_cases_witness :
  String.eqb "key" "" = false /\
  _drive_time_single stub_fn stub_fn stub_fn stub_fn stub_fn
    (flat_service 3600) 0 0 1 1 (Some "key"%string) []
    = (Ret (3600 / 60), [] ++ [mkRequest [(0, 0)] [(1, 1)] "key"]).
Proof.
  split; [reflexivity|].
  destruct (drive_time_single_cases stub_fn stub_fn stub_fn stub_fn stub_fn
              (flat_service 3600) 0 0 1 1 "key"%string [] eq_refl)
    as (_ & Hone & _).
  apply Hone. reflexivity.
Defined.

(** A run of [haversine_symmetric_zero] on the stand-in functions. *)
Lemma haversine_symmetric_zero_witness :
  (forall x, stub_fn (- x) == - stub_fn x) /\
  stub_fn 0 == 0 /\
  forall lon lat,
    _haversine_vec stub_fn stub_fn stub_fn stub_fn stub_fn lon lat lon lat
    == 0.
Proof.
  assert (Hp : forall x y, x == y -> stub_fn x == stub_fn y)
    by (intros x y H; exact H).
  assert (Hodd : forall x, stub_fn (- x) == - stub_fn x)
    by (intros x; reflexivity).
  assert (H0 : stub_fn 0 == 0) by reflexivity.
  split; [exact Hodd|]. split; [exact H0|].
  intros lon lat.
  exact (proj1 (proj2 (haversine_symmetric_zero stub_fn stub_fn stub_fn
                         stub_fn stub_fn Hp Hp Hp Hodd H0 H0 H0) lon lat)).
Defined.

(** A run of [plot_network_edges]: candidates 1 and 2. *)
Lemma plot_network_edges_witness :
  exists s h' es,
    demo_optimize (flat_service 3600) [1%Z; 2%Z] None None 0.015 true
      (Some "key"%string) [] = (Ret (Some s), h') /\
    plot_edges (assigned s) (centers s) = Ret es /\
    length es = length demo_df.
Proof.
  destruct (demo_optimize (flat_service 3600) [1%Z; 2%Z] None None 0.015 true
              (Some "key"%string) []) as [[[s|]|e] h'] eqn:E.
  - destruct (plot_network_edges stub_fn stub_fn stub_fn stub_fn stub_fn
                (flat_service 3600) first_points demo_df 0.02 0.02 6 250000
                true 0.01 (Some demo_supply) None false true (Some "key"%string)
                [1%Z; 2%Z] None 0.015 None None [] h' s E)
      as (es & Hes & Hlen & _).
    exists s, h', es. split; [reflexivity|]. split; assumption.
  - vm_compute in E. discriminate.
  - vm_compute in E. discriminate.
Defined.

(** A run of [k_range_gives_solution]: the range 1 to 3. *)
Lemma k_range_gives_solution_witness :
  (1 <= 3)%Z /\
  exists s h',
    demo_optimize (flat_service 3600) (py_range 1 (3 + 1)) None None 0.015
      true (Some "key"%string) [] = (Ret (Some s), h') /\
    (1 <= k s <= 3)%Z.
Proof.
  assert (Hle : (1 <= 3)%Z) by lia.
  split; [exact Hle|].
  destruct (demo_optimize (flat_service 3600) (py_range 1 (3 + 1)) None None
              0.015 true (Some "key"%string) []) as [[r|e] h'] eqn:E.
  - destruct (k_range_gives_solution stub_fn stub_fn stub_fn stub_fn stub_fn
                (flat_service 3600) first_points demo_df 0.02 0.02 6 250000
                true 0.01 (Some demo_supply) None false true (Some "key"%string)
                1%Z 3%Z None 0.015 None None [] h' r Hle E)
      as (s & -> & Hk).
    exists s, h'. split; [reflexivity|exact Hk].
  - vm_compute in E. discriminate.
Defined.

(** A run of [run_solver_guard]: three supply rows, one usable. *)
Lemma run_solver_guard_witness :
  Forall (fun e : Q * Q * Q * bool => snd (fst e) <= 100)
    [(1, 1, 50, true); (2, 2, 0, true); (3, 3, 20, false)] /\
  run_solver true true 0.01
    [(1, 1, 50, true); (2, 2, 0, true); (3, 3, 20, false)]
    = CallOptimize true 0.01 [(1, 1, 50 / 100)] /\
  Forall (fun sp : supply => 0 < snd sp /\ snd sp <= 1) [(1, 1, 50 / 100)].
Proof.
  assert (Hb : Forall (fun e : Q * Q * Q * bool => snd (fst e) <= 100)
                 [(1, 1, 50, true); (2, 2, 0, true); (3, 3, 20, false)]).
  { repeat constructor; simpl; lra. }
  assert (Hrun : run_solver true true 0.01
                   [(1, 1, 50, true); (2, 2, 0, true); (3, 3, 20, false)]
                 = CallOptimize true 0.01 [(1, 1, 50 / 100)])
    by reflexivity.
  split; [exact Hb|]. split; [exact Hrun|].
  destruct (run_solver_guard true true 0.01 _ true 0.01 _ Hb Hrun)
    as (_ & _ & Hon & _).
  destruct (Hon eq_refl) as (_ & _ & Hshares & _).
  exact Hshares.
Defined.

(** A run of [summary_never_shows_transfers]: candidates 1 and 2. *)
Lemma summary_never_shows_transfers_witness :
  exists s h',
    demo_optimize (flat_service 3600) [1%Z; 2%Z] None (Some demo_rdcs) 0.015
      true (Some "key"%string) [] = (Ret (Some s), h') /\
    app_show_transfer true s = false.
Proof.
  destruct (demo_optimize (flat_service 3600) [1%Z; 2%Z] None (Some demo_rdcs)
              0.015 true (Some "key"%string) []) as [[[s|]|e] h'] eqn:E.
  - exists s, h'. split; [reflexivity|].
    exact (proj1 (summary_never_shows_transfers stub_fn stub_fn stub_fn
                    stub_fn stub_fn (flat_service 3600) first_points demo_df
                    0.02 0.02 6 250000 true 0.01 (Some demo_supply) None false true
                    (Some "key"%string) [1%Z; 2%Z] (Some demo_rdcs) 0.015
                    None None [] h' s true E)).
  - vm_compute in E. discriminate.
  - vm_compute in E. discriminate.
Defined.
